(** * edb.server.server : the server orchestrator

    A shallow embedding of [src/edb/server/server.py] (class [Server]) and
    the properties of its address resolution, dynamic port management,
    shutdown, compiler provisioning and authentication-method lookup.

    Conventions of the embedding:
    - Python exceptions are values of [Exn]; a call returns [Ok v] or
      [Raise e] ([result]).
    - The attributes of the [Server] object, the log of calls made to the
      collaborators (listeners, compiler workers, the logger) and the
      allocation counter of fresh objects form the [World] that every
      method threads through (monad [M]); the state survives a raised
      exception, as it does in Python.
    - The collaborators are outside this file of the repository: what a
      listener's [start()]/[stop()], a worker's [call()], the configuration
      store and [urllib.parse] answer is given by an environment [Env]
      (resp. [Urllib]) over which every theorem is quantified. *)

From Stdlib Require Import List String Ascii ZArith Bool Arith Lia.
From Stdlib Require Import Sorted Permutation DecimalString.
Import ListNotations.
Local Open Scope string_scope.
Local Open Scope list_scope.

Set Implicit Arguments.

(** ** Python values, exceptions and results *)

(** The exception classes that occur in the orchestrator. [External]
    stands for any exception raised by a collaborator. *)
Inductive Exn : Type :=
| InvalidReferenceError (protocol : string)
    (* errors.InvalidReferenceError(f'unknown protocol {protocol!r}') *)
| RuntimeError (msg : string)
| TypeError (msg : string)
| ValueError (msg : string)
| KeyError (msg : string)
| IndexError (msg : string)
| AttributeError (msg : string)
| External (code : nat).

Inductive result (A : Type) : Type :=
| Ok (a : A)
| Raise (e : Exn).
Arguments Ok {A} a.
Arguments Raise {A} e.

(** The scalar values a connection specification or a keyword argument
    holds. *)
Inductive pyval : Type :=
| PyNone
| PyStr (s : string)
| PyInt (z : Z).

(** [str(v)], as an f-string field formats it. *)
Definition py_str (v : pyval) : string :=
  match v with
  | PyNone => "None"
  | PyStr s => s
  | PyInt z => NilZero.string_of_int (Z.to_int z)
  end.

Definition opt_pyval (o : option pyval) : pyval :=
  match o with Some v => v | None => PyNone end.

Definition opt_str (o : option string) : pyval :=
  match o with Some s => PyStr s | None => PyNone end.

(** ** Insertion-ordered dictionaries

    A Python [dict] keeps its keys in insertion order; assigning to a key
    that is present replaces the value in place. *)
Section Dict.
Variables K V : Type.
Variable K_eqb : K -> K -> bool.

Definition dict := list (K * V).

Fixpoint dict_get (k : K) (d : dict) : option V :=
  match d with
  | [] => None
  | (k', v) :: d' => if K_eqb k k' then Some v else dict_get k d'
  end.

Definition dict_contains (k : K) (d : dict) : bool :=
  match dict_get k d with Some _ => true | None => false end.

Fixpoint dict_set (k : K) (v : V) (d : dict) : dict :=
  match d with
  | [] => [(k, v)]
  | (k', v') :: d' =>
      if K_eqb k k' then (k', v) :: d' else (k', v') :: dict_set k v d'
  end.

(** [d.pop(k)]: the value and the dictionary without the key, or nothing
    when the key is absent (Python raises [KeyError] then). *)
Fixpoint dict_pop (k : K) (d : dict) : option (V * dict) :=
  match d with
  | [] => None
  | (k', v) :: d' =>
      if K_eqb k k' then Some (v, d')
      else match dict_pop k d' with
           | Some (x, d'') => Some (x, (k', v) :: d'')
           | None => None
           end
  end.

Definition dict_keys (d : dict) : list K := map fst d.
Definition dict_values (d : dict) : list V := map snd d.
End Dict.

Arguments dict_get {K V} K_eqb k d.
Arguments dict_contains {K V} K_eqb k d.
Arguments dict_set {K V} K_eqb k v d.
Arguments dict_pop {K V} K_eqb k d.
Arguments dict_keys {K V} d.
Arguments dict_values {K V} d.

(** ** Address resolution: [Server._get_pgaddr] *)

(** [os.path.join(a, b)] of [posixpath] for two components. *)
Definition startswith_sep (s : string) : bool :=
  match s with
  | String c _ => Ascii.eqb c "/"
  | EmptyString => false
  end.

Fixpoint endswith_sep (s : string) : bool :=
  match s with
  | EmptyString => false
  | String c EmptyString => Ascii.eqb c "/"
  | String _ rest => endswith_sep rest
  end.

Definition is_empty (s : string) : bool :=
  match s with EmptyString => true | _ => false end.

Definition path_join (a b : string) : string :=
  if startswith_sep b then b
  else if is_empty a || endswith_sep a then a ++ b
  else a ++ "/" ++ b.

(** The connection specification returned by
    [cluster.get_connection_spec()]: a mapping of which the resolver reads
    the keys ['host'], ['port'] and ['dsn']; [None] is an absent key. *)
Module ConnSpec.
Record t : Type := mk {
  host : option string;
  port : option pyval;
  dsn : option string
}.
End ConnSpec.

(** What the resolver uses of [urllib.parse]:
    [urlparse_query d] is [urlparse(d).query], and [parse_qsl q] the list
    of (name, value) fields of [q] in the order they occur, as
    [parse_qsl(q, strict_parsing=True)] returns it; both raise on what
    they reject. *)
Record Urllib : Type := {
  urlparse_query : string -> result string;
  parse_qsl : string -> result (list (string * string))
}.

(** [urllib.parse.parse_qs]: groups the fields by name, each name with the
    list of its values in order of occurrence.
    <<
      for name, value in pairs:
          if name in parsed_result: parsed_result[name].append(value)
          else: parsed_result[name] = [value]
    >> *)
Fixpoint group_fields (pairs : list (string * string))
    (parsed_result : dict string (list string)) : dict string (list string) :=
  match pairs with
  | [] => parsed_result
  | (name, value) :: rest =>
      group_fields rest
        match dict_get String.eqb name parsed_result with
        | Some vs => dict_set String.eqb name (vs ++ [value]) parsed_result
        | None => dict_set String.eqb name [value] parsed_result
        end
  end.

Definition parse_qs (lib : Urllib) (qs : string)
    : result (dict string (list string)) :=
  match parse_qsl lib qs with
  | Ok pairs => Ok (group_fields pairs [])
  | Raise e => Raise e
  end.

(** [x[-1]] on the result of [dict.get]: [None] is not subscriptable, an
    empty list has no last element. *)
Definition subscript_last (x : option (list string)) : result string :=
  match x with
  | None => Raise (TypeError "'NoneType' object is not subscriptable")
  | Some vs =>
      match rev vs with
      | [] => Raise (IndexError "list index out of range")
      | v :: _ => Ok v
      end
  end.

Definition socket_name (port : pyval) : string := ".s.PGSQL." ++ py_str port.

(** <<
      def _get_pgaddr(self):
          pg_con_spec = self._cluster.get_connection_spec()
          if 'host' not in pg_con_spec and 'dsn' in pg_con_spec:
              parsed = urllib.parse.urlparse(pg_con_spec['dsn'])
              query = urllib.parse.parse_qs(parsed.query, strict_parsing=True)
              host = query.get("host")[-1]
              port = query.get("port")[-1]
          else:
              host = pg_con_spec.get("host")
              port = pg_con_spec.get("port")
          return os.path.join(host, f'.s.PGSQL.{port}')
    >> *)
Definition os_path_join (a : option string) (b : string) : result string :=
  match a with
  | None =>
      Raise (TypeError "expected str, bytes or os.PathLike object, not NoneType")
  | Some a => Ok (path_join a b)
  end.

Definition _get_pgaddr (lib : Urllib) (pg_con_spec : ConnSpec.t)
    : result string :=
  match ConnSpec.host pg_con_spec, ConnSpec.dsn pg_con_spec with
  | None, Some d =>
      match urlparse_query lib d with
      | Raise e => Raise e
      | Ok q =>
          match parse_qs lib q with
          | Raise e => Raise e
          | Ok query =>
              match subscript_last (dict_get String.eqb "host" query) with
              | Raise e => Raise e
              | Ok host =>
                  match subscript_last (dict_get String.eqb "port" query) with
                  | Raise e => Raise e
                  | Ok port =>
                      os_path_join (Some host) (socket_name (PyStr port))
                  end
              end
          end
      end
  | host, _ =>
      let port := ConnSpec.port pg_con_spec in
      os_path_join host (socket_name (opt_pyval port))
  end.

(** ** Authentication rules: [_populate_sys_auth], [get_auth_method] *)

(** An authentication method object, identified by the name of its
    configuration type. *)
Record AuthMethod : Type := { method_type : string }.

Module Auth.
Record t : Type := mk {
  user : list string;
  database : list string;
  priority : Z;
  method : AuthMethod
}.
End Auth.

(** [sorted(rules, key=lambda a: a.priority)]. Python's sort is stable;
    a stable insertion sort returns the same list. *)
Fixpoint insert_by_priority (a : Auth.t) (l : list Auth.t) : list Auth.t :=
  match l with
  | [] => [a]
  | b :: l' =>
      if (Auth.priority a <=? Auth.priority b)%Z then a :: b :: l'
      else b :: insert_by_priority a l'
  end.

Fixpoint sorted_by_priority (l : list Auth.t) : list Auth.t :=
  match l with
  | [] => []
  | a :: l' => insert_by_priority a (sorted_by_priority l')
  end.

(** [x in s] for a set of strings. *)
Definition str_in (x : string) (s : list string) : bool :=
  existsb (String.eqb x) s.

(** <<
      match = (
          (user in auth.user or '*' in auth.user)
          and (database in auth.database or '*' in auth.database))
    >> *)
Definition auth_match (user database : string) (auth : Auth.t) : bool :=
  (str_in user (Auth.user auth) || str_in "*" (Auth.user auth))
  && (str_in database (Auth.database auth) || str_in "*" (Auth.database auth)).

(** The [for auth in authlist] loop; [None] is the implicit [return None]
    of a loop that ends without a match. *)
Fixpoint scan_authlist (user database : string) (authlist : list Auth.t)
    : option AuthMethod :=
  match authlist with
  | [] => None
  | auth :: rest =>
      if auth_match user database auth then Some (Auth.method auth)
      else scan_authlist user database rest
  end.

(** [config.get_settings().get_type_by_name(name)()] *)
Definition get_type_by_name (name : string) : AuthMethod :=
  {| method_type := name |}.

(** ** The server object and its collaborators *)

(** A port configuration object (an entry of the [ports] setting). *)
Module Portconf.
Record t : Type := mk {
  protocol : string;
  address : string;
  port : Z;
  database : option string;
  user : option string;
  concurrency : Z
}.

Definition eq_dec (a b : t) : {a = b} + {a <> b}.
Proof.
  decide equality;
    try apply Z.eq_dec; try apply string_dec;
    decide equality; apply string_dec.
Defined.

(** Equality of configuration objects, as the dictionary of dynamic
    ports compares its keys. *)
Definition eqb (a b : t) : bool := if eq_dec a b then true else false.
End Portconf.

(** The listener classes: the two HTTP ports of [_start_portconf] and any
    class handed to [add_port]. *)
Inductive PortCls : Type :=
| HttpGraphQLPort
| HttpEdgeQLPort
| OtherPort (name : string).

Record DatabaseIndex : Type := { dbindex_oid : nat }.

(** A listener object. [port_oid] is its identity: every construction
    yields a fresh one. The other fields are the constructor's arguments. *)
Record Port : Type := {
  port_oid : nat;
  port_cls : PortCls;
  pg_addr : string;
  pg_data_dir : string;
  runstate_dir : string;
  internal_runstate_dir : string;
  dbindex : option DatabaseIndex;
  kwargs : list (string * pyval)
}.

(** A compiler worker handle. *)
Record Worker : Type := { worker_oid : nat }.

Definition Worker_eqb (a b : Worker) : bool :=
  Nat.eqb (worker_oid a) (worker_oid b).

Record Cluster : Type := {
  connection_spec : ConnSpec.t;
  data_dir : string
}.

Record Server : Type := {
  _serving : bool;
  _cluster : Cluster;
  _pg_addr : string;
  _pg_data_dir : string;
  _dbindex : option DatabaseIndex;
  _runstate_dir : string;
  _internal_runstate_dir : string;
  _max_backend_connections : Z;
  _ports : list Port;
  _sys_conf_ports : dict Portconf.t Port;
  _sys_auth : list Auth.t
}.

Definition set_serving (b : bool) (s : Server) : Server :=
  {| _serving := b; _cluster := _cluster s; _pg_addr := _pg_addr s;
     _pg_data_dir := _pg_data_dir s; _dbindex := _dbindex s;
     _runstate_dir := _runstate_dir s;
     _internal_runstate_dir := _internal_runstate_dir s;
     _max_backend_connections := _max_backend_connections s;
     _ports := _ports s; _sys_conf_ports := _sys_conf_ports s;
     _sys_auth := _sys_auth s |}.

Definition set_dbindex (d : option DatabaseIndex) (s : Server) : Server :=
  {| _serving := _serving s; _cluster := _cluster s; _pg_addr := _pg_addr s;
     _pg_data_dir := _pg_data_dir s; _dbindex := d;
     _runstate_dir := _runstate_dir s;
     _internal_runstate_dir := _internal_runstate_dir s;
     _max_backend_connections := _max_backend_connections s;
     _ports := _ports s; _sys_conf_ports := _sys_conf_ports s;
     _sys_auth := _sys_auth s |}.

Definition set_ports (l : list Port) (s : Server) : Server :=
  {| _serving := _serving s; _cluster := _cluster s; _pg_addr := _pg_addr s;
     _pg_data_dir := _pg_data_dir s; _dbindex := _dbindex s;
     _runstate_dir := _runstate_dir s;
     _internal_runstate_dir := _internal_runstate_dir s;
     _max_backend_connections := _max_backend_connections s;
     _ports := l; _sys_conf_ports := _sys_conf_ports s;
     _sys_auth := _sys_auth s |}.

Definition set_sys_conf_ports (d : dict Portconf.t Port) (s : Server)
    : Server :=
  {| _serving := _serving s; _cluster := _cluster s; _pg_addr := _pg_addr s;
     _pg_data_dir := _pg_data_dir s; _dbindex := _dbindex s;
     _runstate_dir := _runstate_dir s;
     _internal_runstate_dir := _internal_runstate_dir s;
     _max_backend_connections := _max_backend_connections s;
     _ports := _ports s; _sys_conf_ports := d;
     _sys_auth := _sys_auth s |}.

Definition set_sys_auth (a : list Auth.t) (s : Server) : Server :=
  {| _serving := _serving s; _cluster := _cluster s; _pg_addr := _pg_addr s;
     _pg_data_dir := _pg_data_dir s; _dbindex := _dbindex s;
     _runstate_dir := _runstate_dir s;
     _internal_runstate_dir := _internal_runstate_dir s;
     _max_backend_connections := _max_backend_connections s;
     _ports := _ports s; _sys_conf_ports := _sys_conf_ports s;
     _sys_auth := a |}.

(** <<
      def __init__(self, *, loop, cluster, runstate_dir,
                   internal_runstate_dir, max_backend_connections):
    >>
    The address is resolved here, once; a failure of [_get_pgaddr] is a
    failure of the construction. *)
Definition __init__ (lib : Urllib) (cluster : Cluster)
    (runstate_dir internal_runstate_dir : string)
    (max_backend_connections : Z) : result Server :=
  match _get_pgaddr lib (connection_spec cluster) with
  | Raise e => Raise e
  | Ok addr =>
      Ok {| _serving := false;
            _cluster := cluster;
            _pg_addr := addr;
            _pg_data_dir := data_dir cluster;
            _dbindex := None;
            _runstate_dir := runstate_dir;
            _internal_runstate_dir := internal_runstate_dir;
            _max_backend_connections := max_backend_connections;
            _ports := [];
            _sys_conf_ports := [];
            _sys_auth := [] |}
  end.

Inductive LogLevel : Type := INFO | WARNING | ERROR.

(** The value of a configuration-change event: a configuration object of
    the [ports] or of the [auth] setting. *)
Inductive ConfigValue : Type :=
| CfgPort (portconf : Portconf.t)
| CfgAuth (auth : Auth.t).

(** What the server does to the outside, in the order it does it: the
    calls to listeners, workers and the logger, and the writes of the
    [_serving] flag that other tasks read. *)
Inductive Event : Type :=
| EvSetServing (b : bool)
| EvPreload
| EvDbIndexInit
| EvPortStart (p : Port)
| EvPortStop (p : Port)
| EvLog (level : LogLevel) (msg : string) (arg : ConfigValue)
| EvSpawnWorker (w : Worker)
| EvWorkerCall (w : Worker) (meth dbname : string) (dbver : Z)
| EvWorkerClose (w : Worker).

(** The system configuration mapping: the keys ['ports'] and ['auth'],
    either of which may be absent. *)
Record SysConfig : Type := {
  cfg_ports : option (list Portconf.t);
  cfg_auth : option (list Auth.t)
}.

(** The collaborators. Each answer may depend on everything that happened
    before the call (the log up to it); [None] is a normal return,
    [Some e] the exception raised. *)
Record Env : Type := {
  port_start_outcome : list Event -> Port -> option Exn;
  port_stop_outcome : list Event -> Port -> option Exn;
  spawn_worker_outcome : list Event -> option Exn;
  worker_call_outcome :
    list Event -> Worker -> string -> string -> Z -> option Exn;
  dbindex_init_outcome : list Event -> option Exn;
  preload_outcome : list Event -> option Exn;
  sys_config : list Event -> SysConfig
}.

Record World : Type := {
  srv : Server;
  trace : list Event;
  next_oid : nat
}.

(** ** The monad of methods *)

Definition M (A : Type) : Type := World -> result A * World.

Definition ret {A} (a : A) : M A := fun w => (Ok a, w).

Definition bind {A B} (m : M A) (f : A -> M B) : M B :=
  fun w =>
    match m w with
    | (Ok a, w') => f a w'
    | (Raise e, w') => (Raise e, w')
    end.

Definition raise {A} (e : Exn) : M A := fun w => (Raise e, w).

Declare Scope m_scope.
Delimit Scope m_scope with M.
Notation "x <- m ;; k" := (bind m (fun x => k))
  (at level 61, m at next level, right associativity) : m_scope.
Notation "m ;; k" := (bind m (fun _ => k))
  (at level 61, right associativity) : m_scope.
Local Open Scope m_scope.

(** [try: body / except Exception as ex: handler(ex) / else: orelse(v)] *)
Definition try_except_else {A B} (body : M A) (handler : Exn -> M B)
    (orelse : A -> M B) : M B :=
  fun w =>
    match body w with
    | (Ok a, w') => orelse a w'
    | (Raise ex, w') => handler ex w'
    end.

Definition get_self : M Server := fun w => (Ok (srv w), w).

Definition modify_self (f : Server -> Server) : M unit :=
  fun w =>
    (Ok tt, {| srv := f (srv w); trace := trace w; next_oid := next_oid w |}).

Definition emit (e : Event) : M unit :=
  fun w =>
    (Ok tt, {| srv := srv w; trace := trace w ++ [e];
               next_oid := next_oid w |}).

(** A call to a collaborator: it is logged, then returns or raises as
    the environment says for the history before the call. *)
Definition external (e : Event) (outcome : list Event -> option Exn)
    : M unit :=
  fun w =>
    match outcome (trace w) with
    | None => emit e w
    | Some ex => (emit e ;; raise ex) w
    end.

Definition fresh_oid : M nat :=
  fun w =>
    (Ok (next_oid w),
     {| srv := srv w; trace := trace w; next_oid := S (next_oid w) |}).

Fixpoint for_each {A} (l : list A) (body : A -> M unit) : M unit :=
  match l with
  | [] => ret tt
  | x :: rest => body x ;; for_each rest body
  end.

Definition logging (level : LogLevel) (msg : string)
    (portconf : Portconf.t) : M unit :=
  emit (EvLog level msg (CfgPort portconf)).

(** [self._serving = b] *)
Definition assign_serving (b : bool) : M unit :=
  emit (EvSetServing b) ;; modify_self (set_serving b).

(** ** Structured task groups *)

(** Modelled from the spec: the tasks of a [TaskGroup], which is not among
    the sources. Every task runs, one after the other in the order of
    creation, whatever the earlier ones did; the first error is
    remembered. *)
Fixpoint run_tasks (tasks : list (M unit)) (first_error : option Exn)
    (w : World) : option Exn * World :=
  match tasks with
  | [] => (first_error, w)
  | t :: rest =>
      match t w with
      | (Ok _, w') => run_tasks rest first_error w'
      | (Raise e, w') =>
          run_tasks rest
            (match first_error with None => Some e | Some _ => first_error end)
            w'
      end
  end.

(** Modelled from the spec: [edb.common.taskgroup.TaskGroup], which is not
    among the sources. [async with TaskGroup() as g: body] runs [body],
    which creates the tasks with [g.create_task] (a created task runs only
    once the block suspends, here at its end); the block does not return
    until every task has finished, success or failure; no task is
    abandoned; if any task failed the block fails and the first error is
    surfaced. The tasks are interleaved by the scheduler; here each runs
    to its end in turn. *)
Definition taskgroup (body : M (list (M unit))) : M unit :=
  fun w =>
    match body w with
    | (Raise e, w') => (Raise e, w')
    | (Ok tasks, w') =>
        match run_tasks tasks None w' with
        | (None, w'') => (Ok tt, w'')
        | (Some e, w'') => (Raise e, w'')
        end
    end.

(** ** The methods of [Server] *)

Section Methods.
Variable env : Env.

(** [await port.start()] and [await port.stop()] *)
Definition port_start (p : Port) : M unit :=
  external (EvPortStart p) (fun h => port_start_outcome env h p).

Definition port_stop (p : Port) : M unit :=
  external (EvPortStop p) (fun h => port_stop_outcome env h p).

(** [self._dbindex.get_sys_config()] *)
Definition get_sys_config : M SysConfig :=
  self <- get_self ;;
  match _dbindex self with
  | None =>
      raise (AttributeError
               "'NoneType' object has no attribute 'get_sys_config'")
  | Some _ => fun w => (Ok (sys_config env (trace w)), w)
  end.

(** <<
      def _populate_sys_auth(self):
          self._sys_auth = tuple(sorted(
              self._dbindex.get_sys_config().get('auth', ()),
              key=lambda a: a.priority))
    >> *)
Definition _populate_sys_auth : M unit :=
  cfg <- get_sys_config ;;
  let auth := match cfg_auth cfg with Some l => l | None => [] end in
  modify_self (set_sys_auth (sorted_by_priority auth)).

(** <<
      async def init(self):
          self._dbindex = await dbview.DatabaseIndex.init(self)
          self._populate_sys_auth()
    >> *)
Definition init : M unit :=
  external EvDbIndexInit (dbindex_init_outcome env) ;;
  oid <- fresh_oid ;;
  modify_self (set_dbindex (Some {| dbindex_oid := oid |})) ;;
  _populate_sys_auth.

(** [await self._compiler_manager.spawn_worker()]: the pool hands out a
    fresh worker, or raises. *)
Definition spawn_worker : M Worker :=
  fun w =>
    match spawn_worker_outcome env (trace w) with
    | Some ex => (Raise ex, w)
    | None =>
        (oid <- fresh_oid ;;
         let worker := {| worker_oid := oid |} in
         emit (EvSpawnWorker worker) ;;
         ret worker) w
    end.

(** [await worker.call(meth, dbname, dbver)], which may raise. *)
Definition worker_call (worker : Worker) (meth dbname : string)
    (dbver : Z) : M unit :=
  external (EvWorkerCall worker meth dbname dbver)
    (fun h => worker_call_outcome env h worker meth dbname dbver).

(** Modelled from the spec: [worker.close()] of the compiler-worker pool,
    which is not among the sources. The contract of the pool lists
    [call(method, ...)] as fallible and [close()] without a failure: it
    closes the worker and returns. *)
Definition worker_close (worker : Worker) : M unit :=
  emit (EvWorkerClose worker).

(** <<
      async def new_compiler(self, dbname, dbver):
          compiler_worker = await self._compiler_manager.spawn_worker()
          try:
              await compiler_worker.call('connect', dbname, dbver)
          except Exception:
              await compiler_worker.close()
              raise
          return compiler_worker
    >> *)
Definition new_compiler (dbname : string) (dbver : Z) : M Worker :=
  compiler_worker <- spawn_worker ;;
  try_except_else
    (worker_call compiler_worker "connect" dbname dbver)
    (fun ex => worker_close compiler_worker ;; raise ex)
    (fun _ => ret tt) ;;
  ret compiler_worker.

(** [port_cls(server=self, loop=self._loop, pg_addr=self._pg_addr, ...,
    dbindex=self._dbindex, **kwargs)] *)
Definition construct_port (cls : PortCls) (kw : list (string * pyval))
    : M Port :=
  self <- get_self ;;
  oid <- fresh_oid ;;
  ret {| port_oid := oid;
         port_cls := cls;
         pg_addr := _pg_addr self;
         pg_data_dir := _pg_data_dir self;
         runstate_dir := _runstate_dir self;
         internal_runstate_dir := _internal_runstate_dir self;
         dbindex := _dbindex self;
         kwargs := kw |}.

Definition portconf_kwargs (portconf : Portconf.t)
    : list (string * pyval) :=
  [ ("netport", PyInt (Portconf.port portconf));
    ("nethost", PyStr (Portconf.address portconf));
    ("database", opt_str (Portconf.database portconf));
    ("user", opt_str (Portconf.user portconf));
    ("protocol", PyStr (Portconf.protocol portconf));
    ("concurrency", PyInt (Portconf.concurrency portconf)) ].

(** The listener class of a protocol name, [None] for an unknown one. *)
Definition port_cls_of_protocol (protocol : string) : option PortCls :=
  if String.eqb protocol "graphql+http" then Some HttpGraphQLPort
  else if String.eqb protocol "edgeql+http" then Some HttpEdgeQLPort
  else None.

(** <<
      async def _start_portconf(self, portconf, *, suppress_errors=False):
          if portconf in self._sys_conf_ports:
              logging.info('port for config %r has been already started',
                           portconf)
              return

          if portconf.protocol == 'graphql+http':
              port_cls = http_graphql_port.HttpGraphQLPort
          elif portconf.protocol == 'edgeql+http':
              port_cls = http_edgeql_port.HttpEdgeQLPort
          else:
              raise errors.InvalidReferenceError(
                  f'unknown protocol {portconf.protocol!r}')

          port = port_cls(...)

          try:
              await port.start()
          except Exception as ex:
              await port.stop()
              if suppress_errors:
                  logging.error(
                      'failed to start port for config: %r', portconf,
                      exc_info=True)
              else:
                  raise ex
          else:
              logging.info('started port for config: %r', portconf)

          self._sys_conf_ports[portconf] = port
          return port
    >> *)
Definition _start_portconf (portconf : Portconf.t)
    (suppress_errors : bool) : M (option Port) :=
  self <- get_self ;;
  if dict_contains Portconf.eqb portconf (_sys_conf_ports self) then
    logging INFO "port for config %r has been already started" portconf ;;
    ret None
  else
    match port_cls_of_protocol (Portconf.protocol portconf) with
    | None => raise (InvalidReferenceError (Portconf.protocol portconf))
    | Some port_cls =>
        port <- construct_port port_cls (portconf_kwargs portconf) ;;
        try_except_else (port_start port)
          (fun ex =>
             port_stop port ;;
             if suppress_errors then
               logging ERROR "failed to start port for config: %r" portconf
             else raise ex)
          (fun _ => logging INFO "started port for config: %r" portconf) ;;
        self <- get_self ;;
        modify_self
          (set_sys_conf_ports
             (dict_set Portconf.eqb portconf port (_sys_conf_ports self))) ;;
        ret (Some port)
    end.

(** <<
      async def _stop_portconf(self, portconf):
          if portconf not in self._sys_conf_ports:
              logging.warning('no port to stop for config: %r', portconf)
              return

          try:
              port = self._sys_conf_ports.pop(portconf)
              await port.stop()
          except Exception:
              logging.error(
                  'failed to stop port for config: %r', portconf,
                  exc_info=True)
          else:
              logging.info('stopped port for config: %r', portconf)
    >> *)
Definition _stop_portconf (portconf : Portconf.t) : M unit :=
  self <- get_self ;;
  if negb (dict_contains Portconf.eqb portconf (_sys_conf_ports self)) then
    logging WARNING "no port to stop for config: %r" portconf
  else
    try_except_else
      (self <- get_self ;;
       match dict_pop Portconf.eqb portconf (_sys_conf_ports self) with
       | None => raise (KeyError "portconf")
       | Some (port, rest) =>
           modify_self (set_sys_conf_ports rest) ;;
           port_stop port
       end)
      (fun _ =>
         logging ERROR "failed to stop port for config: %r" portconf)
      (fun _ => logging INFO "stopped port for config: %r" portconf).

(** <<
      async def _on_system_config_add(self, setting_name, value):
          if setting_name == 'ports':
              await self._start_portconf(value)
    >>
    A value that is not a port configuration object is not in the
    dictionary and has no [protocol] attribute. *)
Definition _on_system_config_add (setting_name : string)
    (value : ConfigValue) : M unit :=
  if String.eqb setting_name "ports" then
    match value with
    | CfgPort portconf => _start_portconf portconf false ;; ret tt
    | CfgAuth _ =>
        raise (AttributeError "object has no attribute 'protocol'")
    end
  else ret tt.

(** <<
      async def _on_system_config_rem(self, setting_name, value):
          if setting_name == 'ports':
              await self._stop_portconf(value)
    >> *)
Definition _on_system_config_rem (setting_name : string)
    (value : ConfigValue) : M unit :=
  if String.eqb setting_name "ports" then
    match value with
    | CfgPort portconf => _stop_portconf portconf
    | CfgAuth _ =>
        emit (EvLog WARNING "no port to stop for config: %r" value)
    end
  else ret tt.

Definition _on_system_config_set (setting_name : string) : M unit :=
  ret tt.

Definition _on_system_config_reset (setting_name : string) : M unit :=
  ret tt.

(** <<
      async def _after_system_config_add(self, setting_name, value):
          if setting_name == 'auth':
              self._populate_sys_auth()
    >>
    and the same for [_after_system_config_rem]. *)
Definition _after_system_config_add (setting_name : string)
    (value : ConfigValue) : M unit :=
  if String.eqb setting_name "auth" then _populate_sys_auth else ret tt.

Definition _after_system_config_rem (setting_name : string)
    (value : ConfigValue) : M unit :=
  if String.eqb setting_name "auth" then _populate_sys_auth else ret tt.

Definition _after_system_config_set (setting_name : string) : M unit :=
  ret tt.

Definition _after_system_config_reset (setting_name : string) : M unit :=
  ret tt.

Definition get_datadir : M string :=
  self <- get_self ;; ret (_pg_data_dir self).

(** <<
      def add_port(self, portcls, **kwargs):
          if self._serving:
              raise RuntimeError(
                  'cannot add new ports after start() call')
          self._ports.append(portcls(server=self, ..., **kwargs))
    >> *)
Definition add_port (portcls : PortCls) (kw : list (string * pyval))
    : M unit :=
  self <- get_self ;;
  if _serving self then
    raise (RuntimeError "cannot add new ports after start() call")
  else
    port <- construct_port portcls kw ;;
    self <- get_self ;;
    modify_self (set_ports (_ports self ++ [port])).

(** <<
      async def start(self):
          ql_parser.preload()
          async with taskgroup.TaskGroup() as g:
              for port in self._ports:
                  g.create_task(port.start())
          sys_config = self._dbindex.get_sys_config()
          if 'ports' in sys_config:
              for portconf in sys_config['ports']:
                  await self._start_portconf(portconf, suppress_errors=True)
          self._serving = True
    >> *)
Definition start : M unit :=
  external EvPreload (preload_outcome env) ;;
  taskgroup (self <- get_self ;; ret (map port_start (_ports self))) ;;
  sys_config <- get_sys_config ;;
  match cfg_ports sys_config with
  | Some ports =>
      for_each ports
        (fun portconf => _start_portconf portconf true ;; ret tt)
  | None => ret tt
  end ;;
  assign_serving true.

(** <<
      async def stop(self):
          self._serving = False
          async with taskgroup.TaskGroup() as g:
              for port in self._ports:
                  g.create_task(port.stop())
              self._ports.clear()
              for port in self._sys_conf_ports.values():
                  g.create_task(port.stop())
              self._sys_conf_ports.clear()
    >> *)
Definition stop : M unit :=
  assign_serving false ;;
  taskgroup
    (self <- get_self ;;
     let static_tasks := map port_stop (_ports self) in
     modify_self (set_ports []) ;;
     self <- get_self ;;
     let dynamic_tasks :=
       map port_stop (dict_values (_sys_conf_ports self)) in
     modify_self (set_sys_conf_ports []) ;;
     ret (static_tasks ++ dynamic_tasks)).

(** <<
      async def get_auth_method(self, user, database, conn):
          authlist = self._sys_auth
          if not authlist:
              default_method = 'SCRAM'
              return config.get_settings().get_type_by_name(
                  default_method)()
          else:
              for auth in authlist:
                  match = (...)
                  if match:
                      return auth.method
    >> *)
Definition get_auth_method (user database : string)
    : M (option AuthMethod) :=
  self <- get_self ;;
  let authlist := _sys_auth self in
  match authlist with
  | [] => ret (Some (get_type_by_name "SCRAM"))
  | _ :: _ => ret (scan_authlist user database authlist)
  end.

(** ** Histories of the server

    The calls the rest of the process makes on the server. *)
Inductive Op : Type :=
| OpInit
| OpAddPort (portcls : PortCls) (kw : list (string * pyval))
| OpStart
| OpStop
| OpStartPortconf (portconf : Portconf.t) (suppress_errors : bool)
| OpStopPortconf (portconf : Portconf.t)
| OpOnSystemConfigAdd (setting_name : string) (value : ConfigValue)
| OpOnSystemConfigRem (setting_name : string) (value : ConfigValue)
| OpAfterSystemConfigAdd (setting_name : string) (value : ConfigValue)
| OpAfterSystemConfigRem (setting_name : string) (value : ConfigValue)
| OpNewCompiler (dbname : string) (dbver : Z)
| OpGetAuthMethod (user database : string).

Definition run_op (op : Op) (w : World) : World :=
  match op with
  | OpInit => snd (init w)
  | OpAddPort portcls kw => snd (add_port portcls kw w)
  | OpStart => snd (start w)
  | OpStop => snd (stop w)
  | OpStartPortconf portconf suppress_errors =>
      snd (_start_portconf portconf suppress_errors w)
  | OpStopPortconf portconf => snd (_stop_portconf portconf w)
  | OpOnSystemConfigAdd n v => snd (_on_system_config_add n v w)
  | OpOnSystemConfigRem n v => snd (_on_system_config_rem n v w)
  | OpAfterSystemConfigAdd n v => snd (_after_system_config_add n v w)
  | OpAfterSystemConfigRem n v => snd (_after_system_config_rem n v w)
  | OpNewCompiler dbname dbver => snd (new_compiler dbname dbver w)
  | OpGetAuthMethod user database => snd (get_auth_method user database w)
  end.

Definition run_ops (ops : list Op) (w : World) : World :=
  fold_left (fun w op => run_op op w) ops w.

Definition initial_world (s : Server) : World :=
  {| srv := s; trace := []; next_oid := 0 |}.

(** The worlds the server can be in: a successful construction followed
    by any sequence of calls. *)
Definition reachable (lib : Urllib) (w : World) : Prop :=
  exists cluster rd ird mbc s ops,
    __init__ lib cluster rd ird mbc = Ok s /\
    w = run_ops ops (initial_world s).
End Methods.

(** The workers that were spawned and not closed since, from the log. *)
Fixpoint remove_worker (x : Worker) (l : list Worker) : list Worker :=
  match l with
  | [] => []
  | y :: l' => if Worker_eqb x y then l' else y :: remove_worker x l'
  end.

Definition live_step (live : list Worker) (e : Event) : list Worker :=
  match e with
  | EvSpawnWorker x => x :: live
  | EvWorkerClose x => remove_worker x live
  | _ => live
  end.

Definition live_workers (h : list Event) : list Worker :=
  fold_left live_step h [].

Definition live_worker_count (h : list Event) : nat :=
  List.length (live_workers h).

(** ** A plain [urllib.parse] for the examples

    On a DSN without percent-escapes: the query is what stands between
    the first [?] and the first [#]; its fields are separated by [&], a
    field without [=] is rejected by strict parsing, a field with a blank
    value is dropped, [+] stands for a space. *)
Module PlainUrllib.
Fixpoint split_first (c : ascii) (s : string) : option (string * string) :=
  match s with
  | EmptyString => None
  | String a rest =>
      if Ascii.eqb a c then Some (EmptyString, rest)
      else match split_first c rest with
           | Some (l, r) => Some (String a l, r)
           | None => None
           end
  end.

Fixpoint split (c : ascii) (s : string) : list string :=
  match s with
  | EmptyString => [EmptyString]
  | String a rest =>
      match split c rest with
      | hd :: tl =>
          if Ascii.eqb a c then EmptyString :: hd :: tl
          else String a hd :: tl
      | [] => [String a EmptyString]
      end
  end.

Fixpoint plus_to_space (s : string) : string :=
  match s with
  | EmptyString => EmptyString
  | String a rest =>
      String (if Ascii.eqb a "+" then " "%char else a) (plus_to_space rest)
  end.

Definition query_of (d : string) : result string :=
  let url := match split_first "#" d with Some (l, _) => l | None => d end in
  match split_first "?" url with
  | Some (_, q) => Ok q
  | None => Ok EmptyString
  end.

Fixpoint fields (l : list string) : result (list (string * string)) :=
  match l with
  | [] => Ok []
  | name_value :: rest =>
      match split_first "=" name_value with
      | None => Raise (ValueError ("bad query field: " ++ name_value))
      | Some (n, v) =>
          match fields rest with
          | Raise e => Raise e
          | Ok r =>
              if is_empty v then Ok r
              else Ok ((plus_to_space n, plus_to_space v) :: r)
          end
      end
  end.

Definition qsl (qs : string) : result (list (string * string)) :=
  if is_empty qs then Ok [] else fields (split "&" qs).

Definition lib : Urllib := {| urlparse_query := query_of; parse_qsl := qsl |}.
End PlainUrllib.

(** ** Environments for the examples *)

(** Every collaborator succeeds, except that a listener's [start()] and
    [stop()] raise what is given; the configuration is the one given. *)
Definition simple_env (start_error stop_error call_error : option Exn)
    (cfg : SysConfig) : Env :=
  {| port_start_outcome := fun _ _ => start_error;
     port_stop_outcome := fun _ _ => stop_error;
     spawn_worker_outcome := fun _ => None;
     worker_call_outcome := fun _ _ _ _ _ => call_error;
     dbindex_init_outcome := fun _ => None;
     preload_outcome := fun _ => None;
     sys_config := fun _ => cfg |}.

Definition empty_config : SysConfig :=
  {| cfg_ports := None; cfg_auth := None |}.

Definition example_cluster : Cluster :=
  {| connection_spec :=
       {| ConnSpec.host := Some "/run/pg";
          ConnSpec.port := Some (PyInt 5432);
          ConnSpec.dsn := None |};
     data_dir := "/var/lib/pg" |}.

(** The server right after its construction on [example_cluster]. *)
Definition example_server : Server :=
  {| _serving := false;
     _cluster := example_cluster;
     _pg_addr := "/run/pg/.s.PGSQL.5432";
     _pg_data_dir := "/var/lib/pg";
     _dbindex := None;
     _runstate_dir := "/run/edb";
     _internal_runstate_dir := "/run/edb/internal";
     _max_backend_connections := 10;
     _ports := [];
     _sys_conf_ports := [];
     _sys_auth := [] |}.

Definition example_world : World := initial_world example_server.

Definition graphql_conf : Portconf.t :=
  {| Portconf.protocol := "graphql+http";
     Portconf.address := "localhost";
     Portconf.port := 8888;
     Portconf.database := Some "db1";
     Portconf.user := Some "alice";
     Portconf.concurrency := 4 |}.

Definition gopher_conf : Portconf.t :=
  {| Portconf.protocol := "gopher";
     Portconf.address := "localhost";
     Portconf.port := 70;
     Portconf.database := None;
     Portconf.user := None;
     Portconf.concurrency := 1 |}.

(** Connection specifications for the examples. *)
Definition spec_trailing_slash : ConnSpec.t :=
  {| ConnSpec.host := Some "/run/pg/";
     ConnSpec.port := Some (PyInt 5432);
     ConnSpec.dsn := Some "postgres://edgedb@/db?host=/tmp&port=1" |}.

Definition spec_host_and_dsn : ConnSpec.t :=
  {| ConnSpec.host := Some "/run/pg";
     ConnSpec.port := Some (PyInt 5432);
     ConnSpec.dsn := Some "postgres://edgedb@/db?host=/tmp&port=1" |}.

Definition spec_without_port : ConnSpec.t :=
  {| ConnSpec.host := Some "/run/pg";
     ConnSpec.port := None;
     ConnSpec.dsn := None |}.

Definition spec_dsn (d : string) : ConnSpec.t :=
  {| ConnSpec.host := None;
     ConnSpec.port := None;
     ConnSpec.dsn := Some d |}.

Definition dsn_repeated : string :=
  "postgres://edgedb@/db?host=/tmp&port=5432&host=/run/pg&port=6543".

Definition dsn_without_host : string := "postgres://edgedb@/db?port=5432".

Definition dsn_malformed : string :=
  "postgres://edgedb@/db?host=/tmp&&port=5432".

(** ** Notions used by the properties *)

(** The values of the fields called [name], in order of occurrence. *)
Definition values_of (name : string) (pairs : list (string * string))
    : list string :=
  map snd (filter (fun p => String.eqb name (fst p)) pairs).

(** The value of the last field called [name] in a query, if any: the
    "last occurrence" of the parameter. *)
Fixpoint last_occurrence (name : string) (pairs : list (string * string))
    : option string :=
  match pairs with
  | [] => None
  | (n, v) :: rest =>
      match last_occurrence name rest with
      | Some x => Some x
      | None => if String.eqb name n then Some v else None
      end
  end.


(** A rule matches a connection attempt when its user pattern contains the
    user or the wildcard, and its database pattern contains the database
    or the wildcard. *)
Definition rule_matches (user database : string) (a : Auth.t) : Prop :=
  (In user (Auth.user a) \/ In "*" (Auth.user a)) /\
  (In database (Auth.database a) \/ In "*" (Auth.database a)).

Definition priority_le (a b : Auth.t) : Prop :=
  (Auth.priority a <= Auth.priority b)%Z.

(** [a] is the first rule of [authlist] that matches. *)
Definition first_match (user database : string) (authlist : list Auth.t)
    (a : Auth.t) : Prop :=
  exists pre post,
    authlist = pre ++ a :: post /\
    Forall (fun b => ~ rule_matches user database b) pre /\
    rule_matches user database a.

(** The two rules of the specification's example, in configured order. *)
Definition example_rules (M1 M2 : AuthMethod) : list Auth.t :=
  [ {| Auth.user := ["*"]; Auth.database := ["*"];
       Auth.priority := 10; Auth.method := M1 |};
    {| Auth.user := ["alice"]; Auth.database := ["*"];
       Auth.priority := 1; Auth.method := M2 |} ].

Definition Trust : AuthMethod := {| method_type := "Trust" |}.
Definition SCRAM : AuthMethod := {| method_type := "SCRAM" |}.

(** A world whose database index is initialized. *)
Definition initialized_world : World :=
  {| srv := set_dbindex (Some {| dbindex_oid := 0 |}) example_server;
     trace := [EvDbIndexInit];
     next_oid := 1 |}.

(** The listener that [_start_portconf] constructs in world [w] for a
    configuration object of class [cls]: a fresh object holding the
    server's settings and the fields of the configuration object. *)
Definition listener_of (w : World) (cls : PortCls) (portconf : Portconf.t)
    : Port :=
  {| port_oid := next_oid w;
     port_cls := cls;
     pg_addr := _pg_addr (srv w);
     pg_data_dir := _pg_data_dir (srv w);
     runstate_dir := _runstate_dir (srv w);
     internal_runstate_dir := _internal_runstate_dir (srv w);
     dbindex := _dbindex (srv w);
     kwargs := portconf_kwargs portconf |}.

(** [w] after more calls were logged, objects allocated, and with the
    server's attributes [s]. *)
Definition advance (w : World) (s : Server) (events : list Event)
    (allocated : nat) : World :=
  {| srv := s; trace := trace w ++ events;
     next_oid := allocated + next_oid w |}.

Definition registered (portconf : Portconf.t) (w : World) : bool :=
  dict_contains Portconf.eqb portconf (_sys_conf_ports (srv w)).

Definition known_protocol (portconf : Portconf.t) : Prop :=
  Portconf.protocol portconf = "graphql+http" \/
  Portconf.protocol portconf = "edgeql+http".

(** The invariant of the dictionary of dynamic ports: no key occurs
    twice, and every key has a known protocol. *)
Definition ports_inv (s : Server) : Prop :=
  NoDup (dict_keys (_sys_conf_ports s)) /\
  Forall known_protocol (dict_keys (_sys_conf_ports s)).

(** A method keeps a property of the server's attributes. *)
Definition preserves {A} (P : Server -> Prop) (m : M A) : Prop :=
  forall w, P (srv w) -> P (srv (snd (m w))).

(** The first error among the [stop()] calls of a group of listeners that
    are stopped one after the other from history [h], if any raises. *)
Fixpoint first_stop_error (env : Env) (h : list Event) (ports : list Port)
    : option Exn :=
  match ports with
  | [] => None
  | p :: rest =>
      match port_stop_outcome env h p with
      | Some e => Some e
      | None => first_stop_error env (h ++ [EvPortStop p]) rest
      end
  end.

(** Environments and worlds for the examples. *)
Definition start_fails_env : Env :=
  simple_env (Some (External 1)) None None empty_config.

Definition start_and_stop_fail_env : Env :=
  simple_env (Some (External 1)) (Some (External 2)) None empty_config.

Definition stop_fails_env : Env :=
  simple_env None (Some (External 2)) None empty_config.

Definition quiet_env : Env := simple_env None None None empty_config.

(** The server after [init()] and the start of [graphql_conf]. *)
Definition one_port_world : World :=
  run_ops quiet_env [OpInit; OpStartPortconf graphql_conf false]
    (initial_world example_server).

(** The server after [init()], [add_port] of a static listener, and
    [start()]. *)
Definition serving_world : World :=
  run_ops quiet_env
    [OpInit; OpAddPort (OtherPort "BinaryPort") [("netport", PyInt 5656)];
     OpStartPortconf graphql_conf false; OpStart]
    (initial_world example_server).

(** The server after [init()] and [add_port] of one static listener. *)
Definition static_port_world : World :=
  run_ops quiet_env
    [OpInit; OpAddPort (OtherPort "BinaryPort") [("netport", PyInt 5656)]]
    (initial_world example_server).

(** ** Notions used by the further properties *)

(** The port configuration objects of a configuration, none when the
    ['ports'] key is absent. *)
Definition configured_ports (cfg : SysConfig) : list Portconf.t :=
  match cfg_ports cfg with Some l => l | None => [] end.

(** No listener's [stop()] ever raises. *)
Definition stops_return (env : Env) : Prop :=
  forall h p, port_stop_outcome env h p = None.

(** Two states of the server that differ at most in the dictionary of
    dynamic ports. *)
Definition only_dynamic_ports_differ (s s' : Server) : Prop :=
  exists d, s' = set_sys_conf_ports d s.

(** The listener registered for a configuration object is of the class
    of the object's protocol, was built from the object's fields, and
    holds the backend address and data directory of the server. *)
Definition listener_matches (s : Server) (portconf : Portconf.t)
    (p : Port) : Prop :=
  port_cls_of_protocol (Portconf.protocol portconf) = Some (port_cls p) /\
  kwargs p = portconf_kwargs portconf /\
  pg_addr p = _pg_addr s /\
  pg_data_dir p = _pg_data_dir s.

Definition entries_match (s : Server) : Prop :=
  Forall (fun e => listener_matches s (fst e) (snd e)) (_sys_conf_ports s).

(** The address and the data directory the server holds are those of its
    cluster. *)
Definition address_of_cluster (lib : Urllib) (s : Server) : Prop :=
  _get_pgaddr lib (connection_spec (_cluster s)) = Ok (_pg_addr s) /\
  _pg_data_dir s = data_dir (_cluster s).

(** A rule with the wildcard for both the user and the database. *)
Definition catch_all (a : Auth.t) : Prop :=
  In "*" (Auth.user a) /\ In "*" (Auth.database a).

(** More examples. *)
Definition spawn_fails_env : Env :=
  {| port_start_outcome := fun _ _ => None;
     port_stop_outcome := fun _ _ => None;
     spawn_worker_outcome := fun _ => Some (External 9);
     worker_call_outcome := fun _ _ _ _ _ => None;
     dbindex_init_outcome := fun _ => None;
     preload_outcome := fun _ => None;
     sys_config := fun _ => empty_config |}.

Definition edgeql_conf : Portconf.t :=
  {| Portconf.protocol := "edgeql+http";
     Portconf.address := "localhost";
     Portconf.port := 8889;
     Portconf.database := Some "db1";
     Portconf.user := None;
     Portconf.concurrency := 2 |}.

Definition ports_config (l : list Portconf.t) : SysConfig :=
  {| cfg_ports := Some l; cfg_auth := None |}.

Definition rule_alice : Auth.t :=
  {| Auth.user := ["alice"]; Auth.database := ["*"];
     Auth.priority := 1; Auth.method := SCRAM |}.

Definition rule_any : Auth.t :=
  {| Auth.user := ["*"]; Auth.database := ["*"];
     Auth.priority := 10; Auth.method := Trust |}.

(** Every static port of the world starts without an error, whenever it
    is started. *)
Definition static_ports_start (env : Env) (w : World) : Prop :=
  forall h p, In p (_ports (srv w)) -> port_start_outcome env h p = None.

(** The history of [start()] once the parser is preloaded and the static
    ports are started. *)
Definition after_static_phase (w : World) : list Event :=
  trace w ++ EvPreload :: map EvPortStart (_ports (srv w)).
(** * Properties *)

(** ** Dictionaries *)

Section DictFacts.
Variables K V : Type.
Variable K_eqb : K -> K -> bool.
Hypothesis K_eqb_eq : forall a b, K_eqb a b = true <-> a = b.

Lemma K_eqb_refl (k : K) : K_eqb k k = true.
Proof. now apply K_eqb_eq. Qed.

Lemma K_eqb_neq (a b : K) : K_eqb a b = false <-> a <> b.
Proof.
  split.
  - intros E H. apply K_eqb_eq in H. congruence.
  - intros H. destruct (K_eqb a b) eqn:E; auto.
    apply K_eqb_eq in E. contradiction.
Qed.

Lemma dict_get_set_same (k : K) (v : V) (d : dict K V) :
  dict_get K_eqb k (dict_set K_eqb k v d) = Some v.
Proof.
  induction d as [|[k' v'] d IH]; simpl.
  - now rewrite K_eqb_refl.
  - destruct (K_eqb k k') eqn:E; simpl; rewrite E; auto.
Qed.

Lemma dict_get_set_other (k k0 : K) (v : V) (d : dict K V) :
  K_eqb k k0 = false ->
  dict_get K_eqb k (dict_set K_eqb k0 v d) = dict_get K_eqb k d.
Proof.
  intros Hk. induction d as [|[k' v'] d IH]; simpl.
  - now rewrite Hk.
  - destruct (K_eqb k0 k') eqn:E; simpl.
    + apply K_eqb_eq in E. subst k'. now rewrite Hk.
    + destruct (K_eqb k k'); auto.
Qed.

Lemma dict_contains_In (k : K) (d : dict K V) :
  dict_contains K_eqb k d = true <-> In k (dict_keys d).
Proof.
  unfold dict_contains.
  induction d as [|[k' v'] d IH]; simpl.
  - split; [discriminate | tauto].
  - destruct (K_eqb k k') eqn:E.
    + apply K_eqb_eq in E. subst. tauto.
    + apply K_eqb_neq in E. rewrite IH. split; [tauto|].
      intros [H | H]; [congruence | assumption].
Qed.

Lemma dict_contains_false (k : K) (d : dict K V) :
  dict_contains K_eqb k d = false <-> ~ In k (dict_keys d).
Proof.
  rewrite <- dict_contains_In.
  destruct (dict_contains K_eqb k d); split; congruence.
Qed.

(** Assigning to an absent key appends the entry. *)
Lemma dict_set_absent (k : K) (v : V) (d : dict K V) :
  dict_contains K_eqb k d = false -> dict_set K_eqb k v d = d ++ [(k, v)].
Proof.
  unfold dict_contains.
  induction d as [|[k' v'] d IH]; simpl; auto.
  destruct (K_eqb k k'); [discriminate|].
  intros H. now rewrite IH.
Qed.

Lemma dict_pop_set_absent (k : K) (v : V) (d : dict K V) :
  dict_contains K_eqb k d = false ->
  dict_pop K_eqb k (dict_set K_eqb k v d) = Some (v, d).
Proof.
  unfold dict_contains.
  induction d as [|[k' v'] d IH]; simpl.
  - now rewrite K_eqb_refl.
  - destruct (K_eqb k k') eqn:E; [discriminate|].
    intros H. simpl. rewrite E, IH; auto.
Qed.

Lemma dict_pop_present (k : K) (d : dict K V) :
  dict_contains K_eqb k d = true ->
  exists v rest, dict_pop K_eqb k d = Some (v, rest).
Proof.
  unfold dict_contains.
  induction d as [|[k' v'] d IH]; simpl; [discriminate|].
  destruct (K_eqb k k'); eauto.
  intros H. destruct (IH H) as (v & rest & ->). eauto.
Qed.

(** Popping a key removes one entry and keeps the others in order. *)
Lemma dict_pop_keys (k : K) (d : dict K V) (v : V) (rest : dict K V) :
  dict_pop K_eqb k d = Some (v, rest) ->
  exists l1 l2, dict_keys d = l1 ++ k :: l2 /\ dict_keys rest = l1 ++ l2.
Proof.
  revert rest.
  induction d as [|[k' v'] d IH]; simpl; [discriminate|].
  intros rest. destruct (K_eqb k k') eqn:E.
  - intros [= <- <-]. apply K_eqb_eq in E. subst k'.
    exists [], (dict_keys d). split; reflexivity.
  - destruct (dict_pop K_eqb k d) as [[x d'']|]; [|discriminate].
    intros [= <- <-].
    destruct (IH _ eq_refl) as (l1 & l2 & H1 & H2).
    exists (k' :: l1), l2. simpl. unfold dict_keys in *.
    rewrite H1, H2. split; reflexivity.
Qed.

Lemma dict_set_keys_absent (k : K) (v : V) (d : dict K V) :
  dict_contains K_eqb k d = false ->
  dict_keys (dict_set K_eqb k v d) = dict_keys d ++ [k].
Proof.
  intros H. rewrite dict_set_absent by assumption.
  unfold dict_keys. now rewrite map_app.
Qed.
End DictFacts.

Arguments K_eqb_refl {K K_eqb} K_eqb_eq k.
Arguments K_eqb_neq {K K_eqb} K_eqb_eq a b.
Arguments dict_get_set_same {K V K_eqb} K_eqb_eq k v d.
Arguments dict_get_set_other {K V K_eqb} K_eqb_eq k k0 v d _.
Arguments dict_contains_In {K V K_eqb} K_eqb_eq k d.
Arguments dict_contains_false {K V K_eqb} K_eqb_eq k d.
Arguments dict_set_absent {K V K_eqb} k v d _.
Arguments dict_pop_set_absent {K V K_eqb} K_eqb_eq k v d _.
Arguments dict_pop_present {K V K_eqb} k d _.
Arguments dict_pop_keys {K V K_eqb} K_eqb_eq k d v rest _.
Arguments dict_set_keys_absent {K V K_eqb} k v d _.

Lemma Portconf_eqb_eq (a b : Portconf.t) : Portconf.eqb a b = true <-> a = b.
Proof.
  unfold Portconf.eqb. destruct (Portconf.eq_dec a b); split; congruence.
Qed.

(** ** Address resolution *)

Lemma group_fields_get (name : string) (pairs : list (string * string)) :
  forall acc,
    dict_get String.eqb name (group_fields pairs acc) =
    match values_of name pairs with
    | [] => dict_get String.eqb name acc
    | vs =>
        Some (match dict_get String.eqb name acc with
              | Some old => old ++ vs
              | None => vs
              end)
    end.
Proof.
  induction pairs as [|[n v] rest IH]; intros acc; simpl; auto.
  rewrite IH. unfold values_of. simpl.
  destruct (String.eqb name n) eqn:E; simpl.
  - apply String.eqb_eq in E. subst n.
    destruct (dict_get String.eqb name acc) as [old|] eqn:G;
      rewrite (dict_get_set_same String.eqb_eq);
      destruct (map snd (filter _ rest)); auto.
    now rewrite <- app_assoc.
  - destruct (dict_get String.eqb n acc);
      rewrite (dict_get_set_other String.eqb_eq) by assumption;
      reflexivity.
Qed.

Lemma last_occurrence_values (name : string)
    (pairs : list (string * string)) :
  last_occurrence name pairs = hd_error (rev (values_of name pairs)).
Proof.
  induction pairs as [|[n v] rest IH]; simpl; auto.
  rewrite IH. unfold values_of. simpl.
  destruct (String.eqb name n); simpl;
    destruct (rev (map snd (filter _ rest))); reflexivity.
Qed.

(** [query.get(name)[-1]] on the parsed query is the last occurrence of
    the parameter; it raises [TypeError] when the parameter is absent. *)
Lemma subscript_last_query (name : string) (pairs : list (string * string)) :
  subscript_last (dict_get String.eqb name (group_fields pairs [])) =
  match last_occurrence name pairs with
  | Some v => Ok v
  | None => Raise (TypeError "'NoneType' object is not subscriptable")
  end.
Proof.
  rewrite group_fields_get, last_occurrence_values. simpl.
  destruct (values_of name pairs) as [|v vs] eqn:E; simpl; auto.
  destruct (rev vs ++ [v]) eqn:R; simpl; auto.
  now destruct (rev vs).
Qed.

Lemma get_pgaddr_host (lib : Urllib) (spec : ConnSpec.t) (h : string) :
  ConnSpec.host spec = Some h ->
  _get_pgaddr lib spec =
  Ok (path_join h (socket_name (opt_pyval (ConnSpec.port spec)))).
Proof.
  intros Hh. unfold _get_pgaddr. rewrite Hh.
  now destruct (ConnSpec.dsn spec).
Qed.

Lemma path_join_socket (h : string) (port : pyval) :
  path_join h (socket_name port) =
  if is_empty h || endswith_sep h then (h ++ socket_name port)%string
  else (h ++ "/" ++ socket_name port)%string.
Proof. reflexivity. Qed.

(** C7 (as amended). With a structured host field the resolver returns
    [os.path.join(host, '.s.PGSQL.<port>')], where [<port>] is [str] of
    the structured port field ([None] when absent), whatever the [dsn]
    field and the URL parser are: that is [<host>/.s.PGSQL.<port>] when
    the host is not empty and does not end with a slash, and
    [<host>.s.PGSQL.<port>], with no slash added, otherwise. *)
Theorem get_pgaddr_structured_host
    (lib : Urllib) (spec : ConnSpec.t) (h : string) :
  ConnSpec.host spec = Some h ->
  let name := (".s.PGSQL." ++ py_str (opt_pyval (ConnSpec.port spec)))%string
  in
  (forall lib' d',
     _get_pgaddr lib'
       {| ConnSpec.host := Some h; ConnSpec.port := ConnSpec.port spec;
          ConnSpec.dsn := d' |} = _get_pgaddr lib spec) /\
  (is_empty h = false -> endswith_sep h = false ->
   _get_pgaddr lib spec = Ok (h ++ "/" ++ name)%string) /\
  (is_empty h = true \/ endswith_sep h = true ->
   _get_pgaddr lib spec = Ok (h ++ name)%string).
Proof.
  intros Hh name. rewrite (get_pgaddr_host lib spec Hh), path_join_socket.
  split; [|split].
  - intros lib' d'.
    now rewrite (get_pgaddr_host lib' (ConnSpec.mk (Some h) _ d') eq_refl).
  - intros -> ->. reflexivity.
  - intros [-> | ->]; [reflexivity|].
    now rewrite orb_true_r.
Qed.

Lemma get_pgaddr_structured_host_witness :
  _get_pgaddr PlainUrllib.lib spec_host_and_dsn = Ok "/run/pg/.s.PGSQL.5432".
Proof.
  apply (get_pgaddr_structured_host PlainUrllib.lib spec_host_and_dsn
           (h := "/run/pg") eq_refl); reflexivity.
Defined.

(** C7 (as stated) fails for a host that ends with a slash: no second
    slash is added. *)
Lemma get_pgaddr_structured_host_counterexample :
  ConnSpec.host spec_trailing_slash = Some "/run/pg/" /\
  _get_pgaddr PlainUrllib.lib spec_trailing_slash
  <> Ok ("/run/pg/" ++ "/.s.PGSQL." ++ "5432")%string.
Proof. split; [reflexivity | discriminate]. Qed.



(** C3 (as amended). A specification without a structured host field
    fails to resolve in each of these cases, with the error of the step
    that failed: without a [dsn], [TypeError] (the host is [None]); with a
    [dsn] that [urlparse] or the strict query parser rejects, the error
    they raise; with a query that lacks a [host] or a [port] parameter,
    [TypeError] ([None] is not subscriptable). *)
Theorem get_pgaddr_failures (lib : Urllib) (spec : ConnSpec.t) :
  ConnSpec.host spec = None ->
  match ConnSpec.dsn spec with
  | None =>
      _get_pgaddr lib spec =
      Raise (TypeError
               "expected str, bytes or os.PathLike object, not NoneType")
  | Some d =>
      match urlparse_query lib d with
      | Raise e => _get_pgaddr lib spec = Raise e
      | Ok q =>
          match parse_qsl lib q with
          | Raise e => _get_pgaddr lib spec = Raise e
          | Ok pairs =>
              last_occurrence "host" pairs = None \/
              last_occurrence "port" pairs = None ->
              _get_pgaddr lib spec =
              Raise (TypeError "'NoneType' object is not subscriptable")
          end
      end
  end.
Proof.
  intros Hh. unfold _get_pgaddr, parse_qs. rewrite Hh.
  destruct (ConnSpec.dsn spec) as [d|]; [|reflexivity].
  destruct (urlparse_query lib d) as [q|e]; [|reflexivity].
  destruct (parse_qsl lib q) as [pairs|e]; [|reflexivity].
  rewrite !subscript_last_query.
  intros [H | H]; rewrite H; [reflexivity|].
  now destruct (last_occurrence "host" pairs).
Qed.

Lemma get_pgaddr_failures_witness :
  _get_pgaddr PlainUrllib.lib (spec_dsn dsn_without_host)
  = Raise (TypeError "'NoneType' object is not subscriptable")
  /\ _get_pgaddr PlainUrllib.lib (spec_dsn dsn_malformed)
     = Raise (ValueError "bad query field: ").
Proof.
  split.
  - apply (get_pgaddr_failures PlainUrllib.lib (spec_dsn dsn_without_host)
             eq_refl).
    left. reflexivity.
  - exact (get_pgaddr_failures PlainUrllib.lib (spec_dsn dsn_malformed)
             eq_refl).
Defined.

(** C3 (as stated) fails: a specification with a host and no port yields
    no usable port, and resolves without any error. *)
Lemma get_pgaddr_failures_counterexample :
  ConnSpec.port spec_without_port = None /\
  _get_pgaddr PlainUrllib.lib spec_without_port
  = Ok "/run/pg/.s.PGSQL.None".
Proof. split; reflexivity. Qed.

(** ** Authentication rules *)

Lemma str_in_In (x : string) (s : list string) :
  str_in x s = true <-> In x s.
Proof.
  unfold str_in. rewrite existsb_exists. split.
  - intros (y & Hy & E). apply String.eqb_eq in E. now subst.
  - intros H. exists x. split; [assumption | apply String.eqb_refl].
Qed.

Lemma auth_match_spec (user database : string) (a : Auth.t) :
  auth_match user database a = true <-> rule_matches user database a.
Proof.
  unfold auth_match, rule_matches.
  rewrite andb_true_iff, !orb_true_iff, !str_in_In. reflexivity.
Qed.

Lemma auth_match_false (user database : string) (a : Auth.t) :
  auth_match user database a = false -> ~ rule_matches user database a.
Proof.
  intros E H. apply auth_match_spec in H. congruence.
Qed.

Lemma insert_by_priority_perm (a : Auth.t) (l : list Auth.t) :
  Permutation (a :: l) (insert_by_priority a l).
Proof.
  induction l as [|b l IH]; simpl; auto.
  destruct (Auth.priority a <=? Auth.priority b)%Z; auto.
  rewrite perm_swap. now constructor.
Qed.

Lemma sorted_by_priority_perm (l : list Auth.t) :
  Permutation l (sorted_by_priority l).
Proof.
  induction l as [|a l IH]; simpl; auto.
  rewrite <- insert_by_priority_perm. now constructor.
Qed.

Lemma insert_by_priority_sorted (a : Auth.t) (l : list Auth.t) :
  Sorted priority_le l -> Sorted priority_le (insert_by_priority a l).
Proof.
  induction l as [|b l IH]; simpl; intros Hs.
  - repeat constructor.
  - destruct (Auth.priority a <=? Auth.priority b)%Z eqn:E.
    + constructor; [assumption|]. constructor.
      unfold priority_le. lia.
    + inversion Hs as [|? ? Hl Hhd]; subst.
      constructor; [now apply IH|].
      destruct l as [|c l]; simpl.
      * constructor. unfold priority_le. lia.
      * destruct (Auth.priority a <=? Auth.priority c)%Z;
          constructor; inversion Hhd; subst; auto.
        unfold priority_le. lia.
Qed.

Lemma sorted_by_priority_sorted (l : list Auth.t) :
  StronglySorted priority_le (sorted_by_priority l).
Proof.
  apply Sorted_StronglySorted.
  - intros x y z. unfold priority_le. lia.
  - induction l as [|a l IH]; simpl.
    + constructor.
    + now apply insert_by_priority_sorted.
Qed.

(** The loop returns the method of the first matching rule, and nothing
    when no rule matches. *)
Lemma scan_authlist_spec (user database : string) (authlist : list Auth.t) :
  match scan_authlist user database authlist with
  | Some m =>
      exists a, first_match user database authlist a /\ m = Auth.method a
  | None => Forall (fun b => ~ rule_matches user database b) authlist
  end.
Proof.
  induction authlist as [|b l IH]; simpl.
  - constructor.
  - destruct (auth_match user database b) eqn:E.
    + exists b. split; [|reflexivity].
      exists [], l. split; [reflexivity|].
      split; [constructor | now apply auth_match_spec].
    + apply auth_match_false in E.
      destruct (scan_authlist user database l) as [m|].
      * destruct IH as (a & (pre & post & -> & Hpre & Ha) & ->).
        exists a. split; [|reflexivity].
        exists (b :: pre), post. split; [reflexivity|].
        split; [now constructor | assumption].
      * now constructor.
Qed.

(** C6. After [_populate_sys_auth] has read a non-empty rule set, the
    rules are held sorted by ascending priority, and [get_auth_method]
    returns the method of the first rule, in that order, whose user
    pattern contains the user or ['*'] and whose database pattern contains
    the database or ['*'] (and no method when no rule matches). With the
    two rules of the example, ["alice"] on ["db1"] gets [M2] and ["bob"]
    gets [M1]. *)
Theorem get_auth_method_first_match
    (env : Env) (w : World) (rules : list Auth.t) :
  _dbindex (srv w) <> None ->
  cfg_auth (sys_config env (trace w)) = Some rules ->
  rules <> [] ->
  let w1 := snd (_populate_sys_auth env w) in
  let authlist := _sys_auth (srv w1) in
  fst (_populate_sys_auth env w) = Ok tt /\
  Permutation rules authlist /\
  StronglySorted priority_le authlist /\
  (forall user database,
     exists r,
       get_auth_method user database w1 = (Ok r, w1) /\
       match r with
       | Some m =>
           exists a, first_match user database authlist a /\
                     m = Auth.method a
       | None => Forall (fun b => ~ rule_matches user database b) authlist
       end) /\
  (forall M1 M2,
     rules = example_rules M1 M2 ->
     get_auth_method "alice" "db1" w1 = (Ok (Some M2), w1) /\
     get_auth_method "bob" "db1" w1 = (Ok (Some M1), w1)).
Proof.
  intros Hdb Hcfg Hne w1 authlist.
  assert (Hrun : _populate_sys_auth env w =
                 (Ok tt, {| srv := set_sys_auth (sorted_by_priority rules)
                                     (srv w);
                            trace := trace w; next_oid := next_oid w |})).
  { unfold _populate_sys_auth, get_sys_config, bind, get_self.
    destruct (_dbindex (srv w)); [|congruence].
    now rewrite Hcfg. }
  subst authlist w1. rewrite Hrun. cbn [fst snd srv set_sys_auth _sys_auth].
  set (w1 := {| srv := _; trace := _; next_oid := _ |}).
  split; [reflexivity|].
  split; [apply sorted_by_priority_perm|].
  split; [apply sorted_by_priority_sorted|].
  assert (Hget : forall user database,
             get_auth_method user database w1 =
             (Ok (scan_authlist user database (sorted_by_priority rules)),
              w1)).
  { intros user database. unfold get_auth_method, bind, get_self, ret.
    cbn [srv w1 set_sys_auth _sys_auth].
    destruct (sorted_by_priority rules) as [|a l] eqn:E; [|reflexivity].
    exfalso. apply Hne.
    apply Permutation_nil. rewrite <- E.
    apply Permutation_sym, sorted_by_priority_perm. }
  split.
  - intros user database. eexists. split; [apply Hget|].
    apply scan_authlist_spec.
  - intros M1 M2 ->. rewrite !Hget. split; reflexivity.
Qed.

Lemma get_auth_method_first_match_witness :
  fst (get_auth_method "alice" "db1"
         (snd (_populate_sys_auth
                 (simple_env None None None
                    {| cfg_ports := None;
                       cfg_auth := Some (example_rules Trust SCRAM) |})
                 initialized_world)))
  = Ok (Some SCRAM).
Proof.
  destruct (get_auth_method_first_match
              (simple_env None None None
                 {| cfg_ports := None;
                    cfg_auth := Some (example_rules Trust SCRAM) |})
              initialized_world (rules := example_rules Trust SCRAM))
    as (_ & _ & _ & _ & H).
  - discriminate.
  - reflexivity.
  - discriminate.
  - destruct (H Trust SCRAM eq_refl) as [Ha _]. now rewrite Ha.
Defined.

(** ** Running the methods *)

(** Unfolds the operations of the monad in the goal. *)
Ltac unfold_m :=
  cbv beta iota zeta delta
    [bind ret raise try_except_else get_self modify_self emit external
     fresh_oid logging assign_serving];
  cbn [fst snd srv trace next_oid].

(** ** Compiler provisioning *)

Lemma live_workers_app (h1 h2 : list Event) :
  live_workers (h1 ++ h2) = fold_left live_step h2 (live_workers h1).
Proof. apply fold_left_app. Qed.

Lemma remove_worker_head (x : Worker) (l : list Worker) :
  remove_worker x (x :: l) = l.
Proof. simpl. unfold Worker_eqb. now rewrite Nat.eqb_refl. Qed.

(** C9. [new_compiler] binds the worker it has just spawned with
    [call('connect', dbname, dbver)]. When that call raises, the worker is
    closed, then the same error is raised to the caller: no handle is
    returned, and the workers that are spawned and not closed are those of
    before the call. When it returns, the handle of the worker is
    returned. *)
Theorem new_compiler_closes_failed_worker
    (env : Env) (w : World) (dbname : string) (dbver : Z) :
  spawn_worker_outcome env (trace w) = None ->
  let worker := {| worker_oid := next_oid w |} in
  let spawned := trace w ++ [EvSpawnWorker worker] in
  let call := EvWorkerCall worker "connect" dbname dbver in
  let r := new_compiler env dbname dbver w in
  match worker_call_outcome env spawned worker "connect" dbname dbver with
  | Some ex =>
      fst r = Raise ex /\
      trace (snd r) = spawned ++ [call; EvWorkerClose worker] /\
      live_workers (trace (snd r)) = live_workers (trace w) /\
      live_worker_count (trace (snd r)) = live_worker_count (trace w)
  | None =>
      fst r = Ok worker /\
      trace (snd r) = spawned ++ [call] /\
      live_workers (trace (snd r)) = worker :: live_workers (trace w)
  end.
Proof.
  intros Hspawn worker spawned call r. subst r.
  unfold new_compiler, spawn_worker, worker_call, worker_close. unfold_m.
  rewrite Hspawn. unfold_m. fold worker. fold spawned.
  destruct (worker_call_outcome env spawned worker "connect" dbname dbver)
    as [ex|]; unfold_m.
  - assert (Hlive : live_workers
                      ((spawned ++ [call]) ++ [EvWorkerClose worker])
                    = live_workers (trace w)).
    { unfold spawned. rewrite !live_workers_app. cbn [fold_left live_step call].
      apply remove_worker_head. }
    split; [reflexivity|]. split; [now rewrite <- app_assoc|].
    split; [exact Hlive|].
    unfold live_worker_count. f_equal. exact Hlive.
  - split; [reflexivity|]. split; [reflexivity|].
    unfold spawned. now rewrite !live_workers_app.
Qed.

Lemma new_compiler_closes_failed_worker_witness :
  fst (new_compiler (simple_env None None (Some (External 7)) empty_config)
         "db1" 3 initialized_world)
  = Raise (External 7)
  /\ live_worker_count
       (trace (snd (new_compiler
                      (simple_env None None (Some (External 7)) empty_config)
                      "db1" 3 initialized_world)))
     = live_worker_count (trace initialized_world).
Proof.
  destruct (new_compiler_closes_failed_worker
              (simple_env None None (Some (External 7)) empty_config)
              initialized_world "db1" 3 eq_refl)
    as (Hr & _ & _ & Hc).
  split; [exact Hr | exact Hc].
Defined.

(** ** Dynamic ports: what one call does *)

Lemma port_cls_known (portconf : Portconf.t) :
  known_protocol portconf <->
  port_cls_of_protocol (Portconf.protocol portconf) <> None.
Proof.
  unfold known_protocol, port_cls_of_protocol.
  destruct (String.eqb_spec (Portconf.protocol portconf) "graphql+http").
  - split; [discriminate | auto].
  - destruct (String.eqb_spec (Portconf.protocol portconf) "edgeql+http").
    + split; [discriminate | auto].
    + split; [intros [H | H]; contradiction | congruence].
Qed.

Lemma start_portconf_registered
    (env : Env) (portconf : Portconf.t) (suppress_errors : bool) (w : World) :
  registered portconf w = true ->
  _start_portconf env portconf suppress_errors w =
  (Ok None,
   advance w (srv w)
     [EvLog INFO "port for config %r has been already started"
        (CfgPort portconf)] 0).
Proof.
  unfold registered, _start_portconf. intros H. unfold_m. now rewrite H.
Qed.

Lemma start_portconf_unknown
    (env : Env) (portconf : Portconf.t) (suppress_errors : bool) (w : World) :
  registered portconf w = false ->
  port_cls_of_protocol (Portconf.protocol portconf) = None ->
  _start_portconf env portconf suppress_errors w =
  (Raise (InvalidReferenceError (Portconf.protocol portconf)), w).
Proof.
  unfold registered, _start_portconf. intros H Hc. unfold_m.
  now rewrite H, Hc.
Qed.

Lemma start_portconf_started
    (env : Env) (portconf : Portconf.t) (suppress_errors : bool) (w : World)
    (cls : PortCls) :
  registered portconf w = false ->
  port_cls_of_protocol (Portconf.protocol portconf) = Some cls ->
  let port := listener_of w cls portconf in
  port_start_outcome env (trace w) port = None ->
  _start_portconf env portconf suppress_errors w =
  (Ok (Some port),
   advance w
     (set_sys_conf_ports
        (dict_set Portconf.eqb portconf port (_sys_conf_ports (srv w)))
        (srv w))
     [EvPortStart port;
      EvLog INFO "started port for config: %r" (CfgPort portconf)] 1).
Proof.
  intros H Hc port Hs. unfold registered in H. unfold _start_portconf.
  unfold construct_port, port_start. unfold_m. rewrite H, Hc. unfold_m.
  fold (listener_of w cls portconf). fold port. rewrite Hs. unfold_m.
  unfold advance. now rewrite <- app_assoc.
Qed.

Lemma start_portconf_failed
    (env : Env) (portconf : Portconf.t) (suppress_errors : bool) (w : World)
    (cls : PortCls) (ex : Exn) :
  registered portconf w = false ->
  port_cls_of_protocol (Portconf.protocol portconf) = Some cls ->
  let port := listener_of w cls portconf in
  port_start_outcome env (trace w) port = Some ex ->
  _start_portconf env portconf suppress_errors w =
  match port_stop_outcome env (trace w ++ [EvPortStart port]) port with
  | Some ex' =>
      (Raise ex', advance w (srv w) [EvPortStart port; EvPortStop port] 1)
  | None =>
      if suppress_errors then
        (Ok (Some port),
         advance w
           (set_sys_conf_ports
              (dict_set Portconf.eqb portconf port (_sys_conf_ports (srv w)))
              (srv w))
           [EvPortStart port; EvPortStop port;
            EvLog ERROR "failed to start port for config: %r"
              (CfgPort portconf)] 1)
      else
        (Raise ex, advance w (srv w) [EvPortStart port; EvPortStop port] 1)
  end.
Proof.
  intros H Hc port Hs. unfold registered in H. unfold _start_portconf.
  unfold construct_port, port_start, port_stop. unfold_m.
  rewrite H, Hc. unfold_m.
  fold (listener_of w cls portconf). fold port. rewrite Hs. unfold_m.
  unfold advance.
  destruct (port_stop_outcome env (trace w ++ [EvPortStart port]) port);
    unfold_m.
  - now rewrite <- app_assoc.
  - destruct suppress_errors; unfold_m; now rewrite <- !app_assoc.
Qed.

Lemma stop_portconf_absent (env : Env) (portconf : Portconf.t) (w : World) :
  registered portconf w = false ->
  _stop_portconf env portconf w =
  (Ok tt,
   advance w (srv w)
     [EvLog WARNING "no port to stop for config: %r" (CfgPort portconf)] 0).
Proof.
  unfold registered, _stop_portconf. intros H. unfold_m. now rewrite H.
Qed.

Lemma stop_portconf_present
    (env : Env) (portconf : Portconf.t) (w : World) (port : Port)
    (rest : dict Portconf.t Port) :
  dict_pop Portconf.eqb portconf (_sys_conf_ports (srv w))
  = Some (port, rest) ->
  _stop_portconf env portconf w =
  (Ok tt,
   advance w (set_sys_conf_ports rest (srv w))
     [EvPortStop port;
      match port_stop_outcome env (trace w) port with
      | None => EvLog INFO "stopped port for config: %r" (CfgPort portconf)
      | Some _ =>
          EvLog ERROR "failed to stop port for config: %r" (CfgPort portconf)
      end] 0).
Proof.
  intros Hpop. unfold _stop_portconf, port_stop. unfold_m.
  assert (Hc : dict_contains Portconf.eqb portconf (_sys_conf_ports (srv w))
               = true).
  { apply (dict_contains_In Portconf_eqb_eq).
    destruct (dict_pop_keys Portconf_eqb_eq _ _ _ _ Hpop) as (l1 & l2 & Hk & _).
    rewrite Hk.
    apply in_elt. }
  rewrite Hc. cbn [negb]. unfold_m. rewrite Hpop. unfold_m. unfold advance.
  destruct (port_stop_outcome env (trace w) port); unfold_m;
    now rewrite <- app_assoc.
Qed.

(** ** Properties kept by the methods *)

Section Preserves.
Variable P : Server -> Prop.

Lemma preserves_ret (A : Type) (a : A) : preserves P (ret a).
Proof. intros w H. exact H. Qed.

Lemma preserves_raise (A : Type) (e : Exn) : preserves P (@raise A e).
Proof. intros w H. exact H. Qed.

Lemma preserves_get_self : preserves P get_self.
Proof. intros w H. exact H. Qed.

Lemma preserves_emit (e : Event) : preserves P (emit e).
Proof. intros w H. exact H. Qed.

Lemma preserves_fresh_oid : preserves P fresh_oid.
Proof. intros w H. exact H. Qed.

Lemma preserves_external (e : Event) (outcome : list Event -> option Exn) :
  preserves P (external e outcome).
Proof.
  intros w H. unfold external. now destruct (outcome (trace w)).
Qed.

Lemma preserves_modify (f : Server -> Server) :
  (forall s, P s -> P (f s)) -> preserves P (modify_self f).
Proof. intros Hf w H. now apply Hf. Qed.

Lemma preserves_bind (A B : Type) (m : M A) (f : A -> M B) :
  preserves P m -> (forall a, preserves P (f a)) -> preserves P (bind m f).
Proof.
  intros Hm Hf w H. unfold bind. specialize (Hm w H).
  destruct (m w) as [[a|e] w']; simpl in *; [now apply Hf | assumption].
Qed.

Lemma preserves_try (A B : Type) (body : M A) (handler : Exn -> M B)
    (orelse : A -> M B) :
  preserves P body ->
  (forall e, preserves P (handler e)) ->
  (forall a, preserves P (orelse a)) ->
  preserves P (try_except_else body handler orelse).
Proof.
  intros Hb Hh Ho w H. unfold try_except_else. specialize (Hb w H).
  destruct (body w) as [[a|e] w']; simpl in *; [now apply Ho | now apply Hh].
Qed.

Lemma preserves_for_each (A : Type) (l : list A) (body : A -> M unit) :
  (forall a, preserves P (body a)) -> preserves P (for_each l body).
Proof.
  intros Hb. induction l as [|a l IH]; simpl.
  - apply preserves_ret.
  - apply preserves_bind; auto.
Qed.

Lemma run_tasks_preserves (tasks : list (M unit)) :
  Forall (preserves P) tasks ->
  forall first_error w,
    P (srv w) -> P (srv (snd (run_tasks tasks first_error w))).
Proof.
  induction 1 as [|t tasks Ht _ IH]; intros first_error w H; simpl; auto.
  specialize (Ht w H).
  destruct (t w) as [[[]|e] w']; simpl in *; now apply IH.
Qed.

Lemma preserves_taskgroup (body : M (list (M unit))) :
  preserves P body ->
  (forall w tasks w', body w = (Ok tasks, w') -> Forall (preserves P) tasks) ->
  preserves P (taskgroup body).
Proof.
  intros Hb Ht w H. unfold taskgroup. specialize (Hb w H).
  destruct (body w) as [[tasks|e] w'] eqn:E; simpl in *; auto.
  pose proof (run_tasks_preserves (Ht _ _ _ E) None w' Hb) as Hr.
  destruct (run_tasks tasks None w') as [[e|] w'']; exact Hr.
Qed.
End Preserves.

Lemma port_tasks_preserve (P : Server -> Prop)
    (task : Port -> M unit) (l : list Port) :
  (forall p, preserves P (task p)) -> Forall (preserves P) (map task l).
Proof.
  intros H. induction l; simpl; constructor; auto.
Qed.

(** Applies the rules above along the structure of a method. *)
Ltac keeps :=
  repeat (cbv beta;
    match goal with
    | |- preserves _ (bind _ _) => apply preserves_bind; [|intros ?]
    | |- preserves _ (try_except_else _ _ _) =>
        apply preserves_try; [| intros ? | intros ?]
    | |- preserves _ (for_each _ _) => apply preserves_for_each; intros ?
    | |- preserves _ (ret _) => apply preserves_ret
    | |- preserves _ (raise _) => apply preserves_raise
    | |- preserves _ get_self => apply preserves_get_self
    | |- preserves _ fresh_oid => apply preserves_fresh_oid
    | |- preserves _ (emit _) => apply preserves_emit
    | |- preserves _ (logging _ _ _) => apply preserves_emit
    | |- preserves _ (external _ _) => apply preserves_external
    | |- preserves _ (modify_self _) =>
        apply preserves_modify; intros ? ?; assumption
    | |- preserves _ (if ?b then _ else _) => destruct b
    | |- preserves _ (match ?x with _ => _ end) => destruct x
    | |- preserves _ (fun w => (Ok _, w)) => intros ? ?; assumption
    end).

(** *** The invariant of the dynamic ports *)

Lemma ports_inv_set (portconf : Portconf.t) (port : Port) (s : Server) :
  known_protocol portconf ->
  dict_contains Portconf.eqb portconf (_sys_conf_ports s) = false ->
  ports_inv s ->
  ports_inv
    (set_sys_conf_ports
       (dict_set Portconf.eqb portconf port (_sys_conf_ports s)) s).
Proof.
  intros Hk Hc [Hnd Hall]. unfold ports_inv. cbn [_sys_conf_ports set_sys_conf_ports].
  rewrite dict_set_keys_absent by assumption.
  apply (dict_contains_false Portconf_eqb_eq) in Hc.
  split.
  - apply NoDup_app; [assumption | repeat constructor; auto | ].
    intros x Hx [<- | []]. contradiction.
  - apply Forall_app. split; [assumption | now constructor].
Qed.

Lemma ports_inv_pop (portconf : Portconf.t) (port : Port)
    (rest : dict Portconf.t Port) (s : Server) :
  dict_pop Portconf.eqb portconf (_sys_conf_ports s) = Some (port, rest) ->
  ports_inv s -> ports_inv (set_sys_conf_ports rest s).
Proof.
  intros Hpop [Hnd Hall]. unfold ports_inv.
  cbn [_sys_conf_ports set_sys_conf_ports].
  destruct (dict_pop_keys Portconf_eqb_eq _ _ _ _ Hpop) as (l1 & l2 & Hd & Hr).
  rewrite Hd in Hnd, Hall. rewrite Hr. split.
  - now apply NoDup_remove_1 in Hnd.
  - apply Forall_app in Hall. destruct Hall as [H1 H2].
    apply Forall_app. split; [assumption | now inversion H2].
Qed.

Lemma start_portconf_inv (env : Env) (portconf : Portconf.t)
    (suppress_errors : bool) :
  preserves ports_inv (_start_portconf env portconf suppress_errors).
Proof.
  intros w Hinv.
  destruct (registered portconf w) eqn:Hreg.
  - now rewrite start_portconf_registered.
  - destruct (port_cls_of_protocol (Portconf.protocol portconf))
      as [cls|] eqn:Hcls.
    + assert (Hk : known_protocol portconf)
        by (apply port_cls_known; congruence).
      destruct (port_start_outcome env (trace w)
                  (listener_of w cls portconf)) as [ex|] eqn:Hs.
      * rewrite (start_portconf_failed env portconf suppress_errors w
                   Hreg Hcls Hs).
        destruct (port_stop_outcome env _ _); [assumption|].
        destruct suppress_errors; [|assumption].
        now apply ports_inv_set.
      * rewrite (start_portconf_started env portconf suppress_errors w
                   Hreg Hcls Hs).
        now apply ports_inv_set.
    + now rewrite start_portconf_unknown.
Qed.

Lemma stop_portconf_inv (env : Env) (portconf : Portconf.t) :
  preserves ports_inv (_stop_portconf env portconf).
Proof.
  intros w Hinv.
  destruct (registered portconf w) eqn:Hreg.
  - destruct (dict_pop_present _ _ Hreg) as (port & rest & Hpop).
    rewrite (stop_portconf_present env portconf w Hpop).
    eapply ports_inv_pop; eauto.
  - now rewrite stop_portconf_absent.
Qed.

Lemma populate_sys_auth_inv (env : Env) :
  preserves ports_inv (_populate_sys_auth env).
Proof. unfold _populate_sys_auth, get_sys_config. keeps. Qed.

Lemma init_inv (env : Env) : preserves ports_inv (init env).
Proof. unfold init. keeps. apply populate_sys_auth_inv. Qed.

Lemma add_port_inv (portcls : PortCls) (kw : list (string * pyval)) :
  preserves ports_inv (add_port portcls kw).
Proof. unfold add_port, construct_port. keeps. Qed.

Lemma new_compiler_inv (env : Env) (dbname : string) (dbver : Z) :
  preserves ports_inv (new_compiler env dbname dbver).
Proof.
  unfold new_compiler, worker_call, worker_close. keeps.
  intros w H. unfold spawn_worker.
  destruct (spawn_worker_outcome env (trace w)); exact H.
Qed.

Lemma get_auth_method_inv (user database : string) :
  preserves ports_inv (get_auth_method user database).
Proof. unfold get_auth_method. keeps. Qed.

Lemma start_inv (env : Env) : preserves ports_inv (start env).
Proof.
  unfold start, get_sys_config, assign_serving. keeps.
  - apply preserves_taskgroup; [keeps|].
    intros w tasks w' [= <- _].
    apply port_tasks_preserve. intros p. unfold port_start. keeps.
  - apply start_portconf_inv.
Qed.

Lemma stop_inv (env : Env) : preserves ports_inv (stop env).
Proof.
  unfold stop, assign_serving. keeps.
  apply preserves_taskgroup.
  - intros w _. unfold_m. split; constructor.
  - intros w tasks w' [= <- _].
    apply Forall_app. split; apply port_tasks_preserve;
      intros p; unfold port_stop; keeps.
Qed.

Lemma on_system_config_add_inv (env : Env) (n : string) (v : ConfigValue) :
  preserves ports_inv (_on_system_config_add env n v).
Proof. unfold _on_system_config_add. keeps. apply start_portconf_inv. Qed.

Lemma on_system_config_rem_inv (env : Env) (n : string) (v : ConfigValue) :
  preserves ports_inv (_on_system_config_rem env n v).
Proof. unfold _on_system_config_rem. keeps. apply stop_portconf_inv. Qed.

Lemma after_system_config_add_inv (env : Env) (n : string)
    (v : ConfigValue) :
  preserves ports_inv (_after_system_config_add env n v).
Proof.
  unfold _after_system_config_add. keeps. apply populate_sys_auth_inv.
Qed.

Lemma after_system_config_rem_inv (env : Env) (n : string)
    (v : ConfigValue) :
  preserves ports_inv (_after_system_config_rem env n v).
Proof.
  unfold _after_system_config_rem. keeps. apply populate_sys_auth_inv.
Qed.

Lemma run_op_inv (env : Env) (op : Op) (w : World) :
  ports_inv (srv w) -> ports_inv (srv (run_op env op w)).
Proof.
  destruct op; simpl.
  - apply init_inv.
  - apply add_port_inv.
  - apply start_inv.
  - apply stop_inv.
  - apply start_portconf_inv.
  - apply stop_portconf_inv.
  - apply on_system_config_add_inv.
  - apply on_system_config_rem_inv.
  - apply after_system_config_add_inv.
  - apply after_system_config_rem_inv.
  - apply new_compiler_inv.
  - apply get_auth_method_inv.
Qed.

(** In every world the server can be in, no configuration object has two
    entries among the dynamic ports and every registered one has a known
    protocol. *)
Lemma reachable_inv (env : Env) (lib : Urllib) (w : World) :
  reachable env lib w -> ports_inv (srv w).
Proof.
  intros (cluster & rd & ird & mbc & s & ops & Hinit & ->).
  assert (H0 : ports_inv (srv (initial_world s))).
  { unfold __init__ in Hinit.
    destruct (_get_pgaddr lib (connection_spec cluster)); [|discriminate].
    injection Hinit as <-. split; constructor. }
  revert H0. generalize (initial_world s). unfold run_ops.
  induction ops as [|op ops IH]; intros w0 H0; simpl; auto.
  apply IH. now apply run_op_inv.
Qed.

(** ** Dynamic ports: the claims *)

(** C1 (as amended). When the listener constructed for a configuration
    object that is not registered and has a known protocol fails to start,
    [_start_portconf] calls [stop()] on that same listener right after the
    failed [start()]. If that [stop()] returns, then with
    [suppress_errors] false the error of [start()] is raised to the
    caller, and with [suppress_errors] true nothing is raised and the
    listener is returned. *)
Theorem start_portconf_start_failure
    (env : Env) (w : World) (portconf : Portconf.t) (suppress_errors : bool)
    (cls : PortCls) (ex : Exn) :
  registered portconf w = false ->
  port_cls_of_protocol (Portconf.protocol portconf) = Some cls ->
  let port := listener_of w cls portconf in
  port_start_outcome env (trace w) port = Some ex ->
  let r := _start_portconf env portconf suppress_errors w in
  (exists rest,
     trace (snd r) = trace w ++ EvPortStart port :: EvPortStop port :: rest) /\
  (port_stop_outcome env (trace w ++ [EvPortStart port]) port = None ->
   fst r = if suppress_errors then Ok (Some port) else Raise ex).
Proof.
  intros Hreg Hcls port Hs r. subst r.
  rewrite (start_portconf_failed env portconf suppress_errors w Hreg Hcls Hs).
  fold port.
  destruct (port_stop_outcome env (trace w ++ [EvPortStart port]) port)
    as [ex'|].
  - split; [now exists [] | discriminate].
  - destruct suppress_errors; (split; [eexists; reflexivity | reflexivity]).
Qed.

Lemma start_portconf_start_failure_witness :
  fst (_start_portconf start_fails_env graphql_conf false initialized_world)
  = Raise (External 1)
  /\ fst (_start_portconf start_fails_env graphql_conf true initialized_world)
     = Ok (Some (listener_of initialized_world HttpGraphQLPort graphql_conf)).
Proof.
  split.
  - apply (start_portconf_start_failure start_fails_env initialized_world
             graphql_conf false (cls := HttpGraphQLPort)
             (ex := External 1) eq_refl eq_refl eq_refl).
    reflexivity.
  - apply (start_portconf_start_failure start_fails_env initialized_world
             graphql_conf true (cls := HttpGraphQLPort)
             (ex := External 1) eq_refl eq_refl eq_refl).
    reflexivity.
Defined.

(** C1 (as stated) fails when the [stop()] that cleans up raises too: its
    error is raised to the caller, also with [suppress_errors] true, and
    in place of the error of [start()] with [suppress_errors] false. *)
Lemma start_portconf_start_failure_counterexample :
  registered graphql_conf initialized_world = false /\
  port_start_outcome start_and_stop_fail_env (trace initialized_world)
    (listener_of initialized_world HttpGraphQLPort graphql_conf)
  = Some (External 1) /\
  fst (_start_portconf start_and_stop_fail_env graphql_conf true
         initialized_world) = Raise (External 2) /\
  fst (_start_portconf start_and_stop_fail_env graphql_conf false
         initialized_world) = Raise (External 2).
Proof. repeat split. Qed.

(** C4. In every world the server can be in, [_start_portconf] on a
    configuration object whose protocol is not a known one raises the
    unknown-protocol error, whatever [suppress_errors] is, and leaves the
    world, the dynamic ports among it, as it was. *)
Theorem start_portconf_unknown_protocol
    (env : Env) (lib : Urllib) (w : World) (portconf : Portconf.t)
    (suppress_errors : bool) :
  reachable env lib w ->
  ~ known_protocol portconf ->
  _start_portconf env portconf suppress_errors w =
  (Raise (InvalidReferenceError (Portconf.protocol portconf)), w).
Proof.
  intros Hr Hk. apply reachable_inv in Hr. destruct Hr as [_ Hall].
  apply start_portconf_unknown.
  - unfold registered. apply (dict_contains_false Portconf_eqb_eq).
    intros Hin. rewrite Forall_forall in Hall. auto.
  - destruct (port_cls_of_protocol (Portconf.protocol portconf)) eqn:E; auto.
    exfalso. apply Hk, port_cls_known. congruence.
Qed.

Lemma start_portconf_unknown_protocol_witness :
  _start_portconf quiet_env gopher_conf true one_port_world =
  (Raise (InvalidReferenceError "gopher"), one_port_world).
Proof.
  apply (start_portconf_unknown_protocol (lib := PlainUrllib.lib)).
  - exists example_cluster, "/run/edb", "/run/edb/internal", 10%Z,
      example_server, [OpInit; OpStartPortconf graphql_conf false].
    split; reflexivity.
  - intros [H | H]; discriminate H.
Defined.

(** C5. In every world the server can be in, no configuration object has
    more than one entry among the dynamic ports. [_start_portconf] on a
    registered configuration object returns [None] after logging; it
    constructs no listener, starts none, and leaves the server as it was.
    [_stop_portconf] on a configuration object that is not registered
    returns after logging a warning, and leaves the server as it was. *)
Theorem dynamic_ports_single_entry (env : Env) (lib : Urllib) (w : World) :
  reachable env lib w ->
  NoDup (dict_keys (_sys_conf_ports (srv w))) /\
  (forall portconf suppress_errors,
     registered portconf w = true ->
     let r := _start_portconf env portconf suppress_errors w in
     fst r = Ok None /\
     srv (snd r) = srv w /\
     next_oid (snd r) = next_oid w /\
     trace (snd r) =
     trace w ++ [EvLog INFO "port for config %r has been already started"
                   (CfgPort portconf)]) /\
  (forall portconf,
     registered portconf w = false ->
     let r := _stop_portconf env portconf w in
     fst r = Ok tt /\
     srv (snd r) = srv w /\
     next_oid (snd r) = next_oid w /\
     trace (snd r) =
     trace w ++ [EvLog WARNING "no port to stop for config: %r"
                   (CfgPort portconf)]).
Proof.
  intros Hr. apply reachable_inv in Hr. destruct Hr as [Hnd _].
  split; [assumption|]. split.
  - intros portconf suppress_errors Hreg r. subst r.
    rewrite start_portconf_registered by assumption. repeat split.
  - intros portconf Hreg r. subst r.
    rewrite stop_portconf_absent by assumption. repeat split.
Qed.

Lemma dynamic_ports_single_entry_witness :
  dict_keys (_sys_conf_ports (srv one_port_world)) = [graphql_conf] /\
  fst (_start_portconf quiet_env graphql_conf false one_port_world) = Ok None /\
  fst (_stop_portconf quiet_env gopher_conf one_port_world) = Ok tt.
Proof.
  assert (Hr : reachable quiet_env PlainUrllib.lib one_port_world).
  { exists example_cluster, "/run/edb", "/run/edb/internal", 10%Z,
      example_server, [OpInit; OpStartPortconf graphql_conf false].
    split; reflexivity. }
  destruct (dynamic_ports_single_entry Hr) as (_ & Hstart & Hstop).
  split; [reflexivity|]. split.
  - apply (Hstart graphql_conf false). reflexivity.
  - apply (Hstop gopher_conf). reflexivity.
Defined.

(** C10 (as amended). With [suppress_errors] true, when the listener of a
    configuration object that is not registered and has a known protocol
    fails to start and the [stop()] that cleans up returns, the listener
    is registered under the configuration object all the same. A start
    for the same object right after is then a no-op, and a stop for it
    removes the entry and calls [stop()] on the failed listener. *)
Theorem start_portconf_registers_failed_listener
    (env : Env) (w : World) (portconf : Portconf.t) (cls : PortCls)
    (ex : Exn) :
  registered portconf w = false ->
  port_cls_of_protocol (Portconf.protocol portconf) = Some cls ->
  let port := listener_of w cls portconf in
  port_start_outcome env (trace w) port = Some ex ->
  port_stop_outcome env (trace w ++ [EvPortStart port]) port = None ->
  let w1 := snd (_start_portconf env portconf true w) in
  dict_get Portconf.eqb portconf (_sys_conf_ports (srv w1)) = Some port /\
  (forall suppress_errors,
     let r := _start_portconf env portconf suppress_errors w1 in
     fst r = Ok None /\
     srv (snd r) = srv w1 /\
     next_oid (snd r) = next_oid w1 /\
     trace (snd r) =
     trace w1 ++ [EvLog INFO "port for config %r has been already started"
                    (CfgPort portconf)]) /\
  (let r := _stop_portconf env portconf w1 in
   fst r = Ok tt /\
   registered portconf (snd r) = false /\
   _sys_conf_ports (srv (snd r)) = _sys_conf_ports (srv w) /\
   exists logged, trace (snd r) = trace w1 ++ [EvPortStop port; logged]).
Proof.
  intros Hreg Hcls port Hs Hstop w1. subst w1.
  rewrite (start_portconf_failed env portconf true w Hreg Hcls Hs).
  fold port. rewrite Hstop.
  set (w1 := advance w _ _ 1).
  assert (Hget : dict_get Portconf.eqb portconf (_sys_conf_ports (srv w1))
                 = Some port)
    by apply (dict_get_set_same Portconf_eqb_eq).
  assert (Hreg1 : registered portconf w1 = true).
  { unfold registered, dict_contains. now rewrite Hget. }
  assert (Hpop : dict_pop Portconf.eqb portconf (_sys_conf_ports (srv w1))
                 = Some (port, _sys_conf_ports (srv w)))
    by (apply (dict_pop_set_absent Portconf_eqb_eq); exact Hreg).
  cbn [snd]. split; [exact Hget|]. split.
  - intros suppress_errors.
    rewrite start_portconf_registered by assumption. repeat split.
  - rewrite (stop_portconf_present env portconf w1 Hpop).
    split; [reflexivity|]. split; [exact Hreg|]. split; [reflexivity|].
    eexists. reflexivity.
Qed.

Lemma start_portconf_registers_failed_listener_witness :
  dict_get Portconf.eqb graphql_conf
    (_sys_conf_ports
       (srv (snd (_start_portconf start_fails_env graphql_conf true
                    initialized_world))))
  = Some (listener_of initialized_world HttpGraphQLPort graphql_conf).
Proof.
  apply (start_portconf_registers_failed_listener start_fails_env
           initialized_world graphql_conf (cls := HttpGraphQLPort)
           (ex := External 1)); reflexivity.
Defined.

(** C10 (as stated) fails when the [stop()] that cleans up raises: the
    error leaves [_start_portconf] before the listener is registered. *)
Lemma start_portconf_registers_failed_listener_counterexample :
  registered graphql_conf initialized_world = false /\
  port_start_outcome start_and_stop_fail_env (trace initialized_world)
    (listener_of initialized_world HttpGraphQLPort graphql_conf)
  = Some (External 1) /\
  _sys_conf_ports
    (srv (snd (_start_portconf start_and_stop_fail_env graphql_conf true
                 initialized_world))) = [].
Proof. repeat split. Qed.

(** ** Shutdown *)

Lemma port_stop_run (env : Env) (p : Port) (w : World) :
  port_stop env p w =
  (match port_stop_outcome env (trace w) p with
   | None => Ok tt
   | Some e => Raise e
   end,
   {| srv := srv w; trace := trace w ++ [EvPortStop p];
      next_oid := next_oid w |}).
Proof.
  unfold port_stop. unfold_m.
  now destruct (port_stop_outcome env (trace w) p).
Qed.

(** Stopping a group of listeners: each [stop()] is called, in order,
    whatever the others did; the server's attributes are not touched. *)
Lemma run_stop_tasks (env : Env) (ports : list Port) :
  forall first_error w,
    let r := run_tasks (map (port_stop env) ports) first_error w in
    fst r = match first_error with
            | Some e => Some e
            | None => first_stop_error env (trace w) ports
            end /\
    srv (snd r) = srv w /\
    next_oid (snd r) = next_oid w /\
    trace (snd r) = trace w ++ map EvPortStop ports.
Proof.
  induction ports as [|p ports IH]; intros first_error w; cbn zeta.
  - simpl. rewrite app_nil_r. now destruct first_error.
  - cbn [map run_tasks first_stop_error]. rewrite port_stop_run.
    destruct (port_stop_outcome env (trace w) p) as [e|]; cbv iota beta.
    all: match goal with
         | |- context [run_tasks _ ?fe ?w1] =>
             destruct (IH fe w1) as (H1 & H2 & H3 & H4)
         end;
      cbn [srv trace next_oid] in H2, H3, H4;
      (split; [rewrite H1; now destruct first_error|]);
      (split; [exact H2|]); (split; [exact H3|]);
      rewrite H4, <- app_assoc; reflexivity.
Qed.

(** C2 (as amended). [stop()] first sets [_serving] to false; it then
    calls [stop()] on every static port and on every dynamic port, once
    each, whether or not the [stop()] of another raises; when it ends,
    both collections are empty. It returns when no listener's [stop()]
    raised; otherwise the first of their errors is raised to the caller
    of [stop()]. *)
Theorem stop_stops_every_listener (env : Env) (w : World) :
  let ports := _ports (srv w) ++ dict_values (_sys_conf_ports (srv w)) in
  let r := stop env w in
  trace (snd r) = trace w ++ EvSetServing false :: map EvPortStop ports /\
  _serving (srv (snd r)) = false /\
  _ports (srv (snd r)) = [] /\
  _sys_conf_ports (srv (snd r)) = [] /\
  fst r = match first_stop_error env (trace w ++ [EvSetServing false]) ports
          with
          | None => Ok tt
          | Some e => Raise e
          end.
Proof.
  intros ports r. subst r. unfold stop, taskgroup. unfold_m.
  cbn [_ports _sys_conf_ports set_serving set_ports set_sys_conf_ports].
  rewrite <- map_app. fold ports.
  match goal with
  | |- context [run_tasks _ None ?w1] =>
      destruct (run_stop_tasks env ports None w1) as (H1 & H2 & H3 & H4);
      destruct (run_tasks (map (port_stop env) ports) None w1) as [o w2]
  end.
  cbn [fst snd srv trace] in H1, H2, H4.
  assert (Htrace : trace w2 =
                   trace w ++ EvSetServing false :: map EvPortStop ports).
  { rewrite H4, <- app_assoc. reflexivity. }
  rewrite <- H1.
  destruct o as [e|]; cbn [fst snd]; rewrite H2; repeat split; exact Htrace.
Qed.

(** C2 (as stated) fails: the error of a listener's [stop()] is raised by
    [stop()], which logs nothing. *)
Lemma stop_stops_every_listener_counterexample :
  List.length (_ports (srv static_port_world)) = 1 /\
  fst (stop stop_fails_env static_port_world) = Raise (External 2) /\
  (forall level msg arg,
     ~ In (EvLog level msg arg)
          (trace (snd (stop stop_fails_env static_port_world)))).
Proof.
  split; [reflexivity|]. split; [reflexivity|].
  intros level msg arg H. vm_compute in H.
  repeat (destruct H as [H | H]; [discriminate H|]). exact H.
Qed.

(** * Further properties *)

(** ** Static ports *)


(** ** Shutdown, again *)

Lemma stop_state (env : Env) (w : World) :
  srv (snd (stop env w))
  = set_sys_conf_ports [] (set_ports [] (set_serving false (srv w))).
Proof.
  unfold stop, taskgroup. unfold_m. rewrite <- map_app.
  match goal with
  | |- context [run_tasks (map _ ?ports) None ?w1] =>
      destruct (run_stop_tasks env ports None w1) as (_ & H2 & _);
      destruct (run_tasks (map (port_stop env) ports) None w1) as [o w2]
  end.
  cbn [snd srv] in H2. now destruct o.
Qed.


(** X3. A second [stop()] right after a [stop()] calls no listener: it writes
    the flag again and returns, whatever the first one did. *)
Theorem stop_twice (env : Env) (w : World) :
  let w1 := snd (stop env w) in
  let r := stop env w1 in
  fst r = Ok tt /\
  trace (snd r) = trace w1 ++ [EvSetServing false] /\
  srv (snd r) = srv w1.
Proof.
  intros w1 r.
  assert (Hs : srv w1 = set_sys_conf_ports []
                          (set_ports [] (set_serving false (srv w))))
    by apply stop_state.
  assert (Hs' : srv (snd r) = set_sys_conf_ports []
                          (set_ports [] (set_serving false (srv w1))))
    by apply stop_state.
  split; [|split].
  - subst r. unfold stop, taskgroup. unfold_m. rewrite Hs. reflexivity.
  - subst r. unfold stop, taskgroup. unfold_m. rewrite Hs. reflexivity.
  - rewrite Hs', Hs. reflexivity.
Qed.

(** ** Compiler provisioning, again *)

(** X4. When [spawn_worker()] raises, [new_compiler] raises the same error
    and has called neither [connect] nor [close]: the world is as it
    was. *)
Theorem new_compiler_spawn_failure
    (env : Env) (w : World) (dbname : string) (dbver : Z) (ex : Exn) :
  spawn_worker_outcome env (trace w) = Some ex ->
  new_compiler env dbname dbver w = (Raise ex, w).
Proof.
  intros H. unfold new_compiler, spawn_worker. unfold_m. now rewrite H.
Qed.

Lemma new_compiler_spawn_failure_witness :
  new_compiler spawn_fails_env "db1" 3 initialized_world
  = (Raise (External 9), initialized_world).
Proof.
  apply (new_compiler_spawn_failure spawn_fails_env initialized_world
           "db1" 3 (ex := External 9)).
  reflexivity.
Defined.

(** ** Address resolution, again *)

(** X5. A specification without a structured host resolves only from a
    complete query: whenever [_get_pgaddr] returns an address for it,
    there is a [dsn], its query passed the strict parser, the query has
    both a [host] and a [port] parameter, and the address is the one
    joined from their last values. The structured [port] field plays no
    part. *)
Theorem get_pgaddr_dsn_success
    (lib : Urllib) (spec : ConnSpec.t) (a : string) :
  ConnSpec.host spec = None ->
  _get_pgaddr lib spec = Ok a ->
  exists d q pairs h p,
    ConnSpec.dsn spec = Some d /\
    urlparse_query lib d = Ok q /\
    parse_qsl lib q = Ok pairs /\
    last_occurrence "host" pairs = Some h /\
    last_occurrence "port" pairs = Some p /\
    a = path_join h (".s.PGSQL." ++ p)%string.
Proof.
  intros Hh. unfold _get_pgaddr, parse_qs. rewrite Hh.
  destruct (ConnSpec.dsn spec) as [d|]; [|discriminate].
  destruct (urlparse_query lib d) as [q|e] eqn:Hq; [|discriminate].
  destruct (parse_qsl lib q) as [pairs|e] eqn:Hp; [|discriminate].
  rewrite !subscript_last_query.
  destruct (last_occurrence "host" pairs) as [h|] eqn:H1; [|discriminate].
  destruct (last_occurrence "port" pairs) as [p|] eqn:H2; [|discriminate].
  intros [= <-]. exists d, q, pairs, h, p.
  repeat split; assumption || reflexivity.
Qed.

Lemma get_pgaddr_dsn_success_witness :
  exists d q pairs h p,
    ConnSpec.dsn (spec_dsn dsn_repeated) = Some d /\
    urlparse_query PlainUrllib.lib d = Ok q /\
    parse_qsl PlainUrllib.lib q = Ok pairs /\
    last_occurrence "host" pairs = Some h /\
    last_occurrence "port" pairs = Some p /\
    "/run/pg/.s.PGSQL.6543" = path_join h (".s.PGSQL." ++ p)%string.
Proof.
  apply (get_pgaddr_dsn_success PlainUrllib.lib (spec_dsn dsn_repeated));
    reflexivity.
Defined.

(** ** Authentication rules, again *)

Lemma populate_sys_auth_run (env : Env) (w : World) :
  _dbindex (srv w) <> None ->
  _populate_sys_auth env w =
  (Ok tt,
   {| srv := set_sys_auth
               (sorted_by_priority
                  match cfg_auth (sys_config env (trace w)) with
                  | Some l => l
                  | None => []
                  end) (srv w);
      trace := trace w; next_oid := next_oid w |}).
Proof.
  intros H. unfold _populate_sys_auth, get_sys_config. unfold_m.
  destruct (_dbindex (srv w)); [reflexivity | congruence].
Qed.

(** X6. When the configuration has no ['auth'] rules (the key is absent or
    its collection is empty), the rebuild that follows the removal of an
    auth object leaves the rule set empty, and [get_auth_method] then
    answers [SCRAM] for every user and database. *)
Theorem no_rules_default_method
    (env : Env) (w : World) (value : ConfigValue) :
  _dbindex (srv w) <> None ->
  cfg_auth (sys_config env (trace w)) = None \/
  cfg_auth (sys_config env (trace w)) = Some [] ->
  let w1 := snd (_after_system_config_rem env "auth" value w) in
  fst (_after_system_config_rem env "auth" value w) = Ok tt /\
  forall user database,
    get_auth_method user database w1
    = (Ok (Some (get_type_by_name "SCRAM")), w1).
Proof.
  intros Hdb Hcfg w1. subst w1. unfold _after_system_config_rem.
  cbn [String.eqb Ascii.eqb Bool.eqb]. rewrite populate_sys_auth_run by assumption.
  assert (E : match cfg_auth (sys_config env (trace w)) with
              | Some l => l
              | None => []
              end = []) by (destruct Hcfg as [-> | ->]; reflexivity).
  rewrite E. split; reflexivity.
Qed.

Lemma no_rules_default_method_witness :
  get_auth_method "bob" "db1"
    (snd (_after_system_config_rem quiet_env "auth" (CfgAuth rule_alice)
            initialized_world))
  = (Ok (Some SCRAM),
     snd (_after_system_config_rem quiet_env "auth" (CfgAuth rule_alice)
            initialized_world)).
Proof.
  apply (no_rules_default_method quiet_env initialized_world
           (CfgAuth rule_alice)).
  - discriminate.
  - left. reflexivity.
Defined.

(** X7. A rule with the wildcard for both user and database guarantees an
    answer: whatever the other rules are, [get_auth_method] returns a
    method for every user and database, and changes nothing. *)
Theorem catch_all_rule_always_answers
    (w : World) (a : Auth.t) (user database : string) :
  In a (_sys_auth (srv w)) ->
  catch_all a ->
  exists m, get_auth_method user database w = (Ok (Some m), w).
Proof.
  intros Hin [Hu Hd]. unfold get_auth_method. unfold_m.
  destruct (_sys_auth (srv w)) as [|b l] eqn:E; [contradiction|].
  rewrite <- E in *. clear E.
  pose proof (scan_authlist_spec user database (_sys_auth (srv w))) as H.
  destruct (scan_authlist user database (_sys_auth (srv w))) as [m|].
  - now exists m.
  - rewrite Forall_forall in H. exfalso. apply (H a Hin).
    split; right; assumption.
Qed.

Lemma catch_all_rule_always_answers_witness :
  exists m,
    get_auth_method "bob" "db1"
      (snd (_populate_sys_auth
              (simple_env None None None
                 {| cfg_ports := None;
                    cfg_auth := Some [rule_any; rule_alice] |})
              initialized_world))
    = (Ok (Some m),
       snd (_populate_sys_auth
              (simple_env None None None
                 {| cfg_ports := None;
                    cfg_auth := Some [rule_any; rule_alice] |})
              initialized_world)).
Proof.
  apply (catch_all_rule_always_answers _ (a := rule_any)).
  - right. left. reflexivity.
  - split; left; reflexivity.
Defined.

Lemma sorted_after (pre : list Auth.t) (r : Auth.t) (post : list Auth.t) :
  StronglySorted priority_le (pre ++ r :: post) ->
  Forall (priority_le r) post.
Proof.
  induction pre as [|b pre IH]; simpl; intros H; inversion H; subst; auto.
Qed.

(** X8. The rule that matches with the strictly lowest priority number wins,
    in whatever order the rules are configured: if [a] is a configured
    rule that matches and every other configured rule that matches has a
    greater priority number, then after [_populate_sys_auth] the answer of
    [get_auth_method] is the method of [a]. *)
Theorem lowest_priority_match_wins
    (env : Env) (w : World) (rules : list Auth.t) (a : Auth.t)
    (user database : string) :
  _dbindex (srv w) <> None ->
  cfg_auth (sys_config env (trace w)) = Some rules ->
  In a rules ->
  rule_matches user database a ->
  (forall b, In b rules -> rule_matches user database b ->
             b = a \/ (Auth.priority a < Auth.priority b)%Z) ->
  let w1 := snd (_populate_sys_auth env w) in
  get_auth_method user database w1 = (Ok (Some (Auth.method a)), w1).
Proof.
  intros Hdb Hcfg Hin Hm Hlow w1. subst w1.
  rewrite populate_sys_auth_run by assumption. rewrite Hcfg. cbn [snd].
  set (w1 := {| srv := _; trace := _; next_oid := _ |}).
  assert (Hauth : _sys_auth (srv w1) = sorted_by_priority rules)
    by reflexivity.
  pose proof (sorted_by_priority_perm rules) as Hperm.
  pose proof (sorted_by_priority_sorted rules) as Hsorted.
  rewrite <- Hauth in Hperm, Hsorted.
  assert (Hin' : In a (_sys_auth (srv w1)))
    by (eapply Permutation_in; eauto).
  pose proof (scan_authlist_spec user database (_sys_auth (srv w1)))
    as Hspec.
  unfold get_auth_method. unfold_m.
  destruct (_sys_auth (srv w1)) as [|a0 l0] eqn:E; [contradiction|].
  rewrite <- E in *. clear E.
  f_equal. f_equal.
  destruct (scan_authlist user database (_sys_auth (srv w1))) as [m|].
  - destruct Hspec as (b & (pre & post & Hl & Hpre & Hb) & ->).
    f_equal.
    assert (Hbin : In b rules).
    { eapply Permutation_in; [apply Permutation_sym, Hperm|].
      rewrite Hl. apply in_elt. }
    destruct (Hlow b Hbin Hb) as [-> | Hlt]; [reflexivity|].
    exfalso. rewrite Hl in Hin', Hsorted.
    apply in_app_or in Hin'. destruct Hin' as [Hp | [-> | Hp]].
    + rewrite Forall_forall in Hpre. exact (Hpre a Hp Hm).
    + lia.
    + apply sorted_after in Hsorted. rewrite Forall_forall in Hsorted.
      specialize (Hsorted a Hp). unfold priority_le in Hsorted. lia.
  - exfalso. rewrite Forall_forall in Hspec. exact (Hspec a Hin' Hm).
Qed.

Lemma lowest_priority_match_wins_witness :
  fst (get_auth_method "alice" "db1"
         (snd (_populate_sys_auth
                 (simple_env None None None
                    {| cfg_ports := None;
                       cfg_auth := Some [rule_any; rule_alice] |})
                 initialized_world)))
  = Ok (Some SCRAM).
Proof.
  rewrite (lowest_priority_match_wins
             (simple_env None None None
                {| cfg_ports := None;
                   cfg_auth := Some [rule_any; rule_alice] |})
             initialized_world (rules := [rule_any; rule_alice])
             (a := rule_alice) (user := "alice") (database := "db1")).
  - reflexivity.
  - discriminate.
  - reflexivity.
  - right. left. reflexivity.
  - split; [left | right]; left; reflexivity.
  - intros b [<- | [<- | []]] _; [right; reflexivity | left; reflexivity].
Defined.

(** ** Dynamic ports, again *)

Section DictPop.
Variables K V : Type.
Variable K_eqb : K -> K -> bool.
Hypothesis K_eqb_eq : forall a b, K_eqb a b = true <-> a = b.

(** [pop] hands out the value [get] finds, and leaves the other keys
    alone. *)
Lemma dict_pop_get (k : K) (d : dict K V) (v : V) (rest : dict K V) :
  dict_pop K_eqb k d = Some (v, rest) ->
  dict_get K_eqb k d = Some v /\
  forall k', k' <> k -> dict_get K_eqb k' rest = dict_get K_eqb k' d.
Proof.
  revert rest. induction d as [|[k0 v0] d IH]; simpl; [discriminate|].
  intros rest. destruct (K_eqb k k0) eqn:E.
  - intros [= <- <-]. split; [reflexivity|].
    intros k' Hk. apply K_eqb_eq in E. subst k0.
    apply (K_eqb_neq K_eqb_eq) in Hk. now rewrite Hk.
  - destruct (dict_pop K_eqb k d) as [[x d']|]; [|discriminate].
    intros [= <- <-]. destruct (IH _ eq_refl) as [H1 H2].
    split; [assumption|]. intros k' Hk. simpl.
    destruct (K_eqb k' k0); auto.
Qed.

Lemma dict_pop_incl (k : K) (d : dict K V) (v : V) (rest : dict K V) :
  dict_pop K_eqb k d = Some (v, rest) -> incl rest d.
Proof.
  revert rest. induction d as [|[k0 v0] d IH]; simpl; [discriminate|].
  intros rest. destruct (K_eqb k k0).
  - intros [= <- <-]. apply incl_tl, incl_refl.
  - destruct (dict_pop K_eqb k d) as [[x d']|]; [|discriminate].
    intros [= <- <-]. apply incl_cons; [now left|].
    apply incl_tl. now apply IH.
Qed.

Lemma dict_get_present (k : K) (d : dict K V) :
  dict_contains K_eqb k d = true -> exists v, dict_get K_eqb k d = Some v.
Proof.
  unfold dict_contains. destruct (dict_get K_eqb k d); [eauto|discriminate].
Qed.
End DictPop.

Arguments dict_pop_get {K V K_eqb} K_eqb_eq k d v rest _.
Arguments dict_pop_incl {K V K_eqb} k d v rest _.
Arguments dict_get_present {K V K_eqb} k d _.

Lemma set_sys_conf_ports_same (s : Server) :
  set_sys_conf_ports (_sys_conf_ports s) s = s.
Proof. now destruct s. Qed.

(** X9. [_stop_portconf] on a registered configuration object never raises,
    whether or not the listener's [stop()] does: it calls [stop()] on the
    listener registered for the object, once, and removes the entry. The
    object is not registered afterwards, the entries of the other objects
    are as they were, and nothing else of the server changes. *)
Theorem stop_portconf_unregisters
    (env : Env) (lib : Urllib) (w : World) (portconf : Portconf.t) :
  reachable env lib w ->
  registered portconf w = true ->
  let r := _stop_portconf env portconf w in
  exists port,
    dict_get Portconf.eqb portconf (_sys_conf_ports (srv w)) = Some port /\
    fst r = Ok tt /\
    registered portconf (snd r) = false /\
    (forall k, k <> portconf ->
       dict_get Portconf.eqb k (_sys_conf_ports (srv (snd r)))
       = dict_get Portconf.eqb k (_sys_conf_ports (srv w))) /\
    (exists logged, trace (snd r) = trace w ++ [EvPortStop port; logged]) /\
    only_dynamic_ports_differ (srv w) (srv (snd r)).
Proof.
  intros Hr Hreg r. subst r. apply reachable_inv in Hr.
  destruct (dict_pop_present _ _ Hreg) as (port & rest & Hpop).
  destruct (dict_pop_get Portconf_eqb_eq _ _ _ _ Hpop) as [Hget Hother].
  exists port. split; [exact Hget|].
  rewrite (stop_portconf_present env portconf w Hpop). cbn [fst snd].
  split; [reflexivity|]. split; [|split; [|split]].
  - unfold registered, advance. cbn [srv set_sys_conf_ports _sys_conf_ports].
    apply (dict_contains_false Portconf_eqb_eq).
    destruct Hr as [Hnd _].
    destruct (dict_pop_keys Portconf_eqb_eq _ _ _ _ Hpop)
      as (l1 & l2 & Hd & Hrest).
    rewrite Hd in Hnd. rewrite Hrest. now apply NoDup_remove_2 in Hnd.
  - intros k Hk. now apply Hother.
  - eexists. reflexivity.
  - eexists. reflexivity.
Qed.

Lemma stop_portconf_unregisters_witness :
  fst (_stop_portconf stop_fails_env graphql_conf
         (run_ops stop_fails_env [OpInit; OpStartPortconf graphql_conf false]
            (initial_world example_server))) = Ok tt.
Proof.
  destruct (@stop_portconf_unregisters stop_fails_env PlainUrllib.lib
              (run_ops stop_fails_env
                 [OpInit; OpStartPortconf graphql_conf false]
                 (initial_world example_server))
              graphql_conf) as (port & _ & H & _).
  - exists example_cluster, "/run/edb", "/run/edb/internal", 10%Z,
      example_server, [OpInit; OpStartPortconf graphql_conf false].
    split; reflexivity.
  - reflexivity.
  - exact H.
Defined.

(** X10. Starting a configuration object and stopping it again is a round
    trip: when the listener of an object that is not registered starts,
    [_start_portconf] returns it and registers it under the object; a
    [_stop_portconf] for the object right after stops that very listener
    and leaves the server exactly as it was before the start. *)
Theorem start_then_stop_portconf
    (env : Env) (w : World) (portconf : Portconf.t)
    (suppress_errors : bool) (cls : PortCls) :
  registered portconf w = false ->
  port_cls_of_protocol (Portconf.protocol portconf) = Some cls ->
  let port := listener_of w cls portconf in
  port_start_outcome env (trace w) port = None ->
  let r1 := _start_portconf env portconf suppress_errors w in
  let r2 := _stop_portconf env portconf (snd r1) in
  fst r1 = Ok (Some port) /\
  dict_get Portconf.eqb portconf (_sys_conf_ports (srv (snd r1)))
  = Some port /\
  fst r2 = Ok tt /\
  srv (snd r2) = srv w /\
  exists l1 l2,
    trace (snd r2) = trace w ++ [EvPortStart port; l1; EvPortStop port; l2].
Proof.
  intros Hreg Hcls port Hs r1 r2. subst r2 r1.
  rewrite (start_portconf_started env portconf suppress_errors w
             Hreg Hcls Hs). fold port.
  set (w1 := advance w _ _ 1). cbn [fst snd].
  assert (Hpop : dict_pop Portconf.eqb portconf (_sys_conf_ports (srv w1))
                 = Some (port, _sys_conf_ports (srv w)))
    by (apply (dict_pop_set_absent Portconf_eqb_eq); exact Hreg).
  rewrite (stop_portconf_present env portconf w1 Hpop). cbn [fst snd].
  split; [reflexivity|].
  split; [apply (dict_get_set_same Portconf_eqb_eq)|].
  split; [reflexivity|]. split.
  - subst w1. unfold advance. cbn [srv].
    destruct (srv w); reflexivity.
  - do 2 eexists. subst w1. unfold advance. cbn [trace].
    rewrite <- app_assoc. reflexivity.
Qed.

Lemma start_then_stop_portconf_witness :
  srv (snd (_stop_portconf quiet_env graphql_conf
              (snd (_start_portconf quiet_env graphql_conf false
                      initialized_world))))
  = srv initialized_world.
Proof.
  apply (start_then_stop_portconf quiet_env initialized_world graphql_conf
           false (cls := HttpGraphQLPort)); reflexivity.
Defined.

(** X11. The addition of a [ports] object to the configuration starts its
    listener without suppression: when the listener fails to start and
    the [stop()] that cleans up returns, the handler raises the error of
    [start()] and registers nothing, so the server is as it was. *)
Theorem config_add_start_failure_registers_nothing
    (env : Env) (w : World) (portconf : Portconf.t) (cls : PortCls)
    (ex : Exn) :
  registered portconf w = false ->
  port_cls_of_protocol (Portconf.protocol portconf) = Some cls ->
  let port := listener_of w cls portconf in
  port_start_outcome env (trace w) port = Some ex ->
  port_stop_outcome env (trace w ++ [EvPortStart port]) port = None ->
  let r := _on_system_config_add env "ports" (CfgPort portconf) w in
  fst r = Raise ex /\
  srv (snd r) = srv w /\
  registered portconf (snd r) = false /\
  trace (snd r) = trace w ++ [EvPortStart port; EvPortStop port].
Proof.
  intros Hreg Hcls port Hs Hstop r.
  assert (E : r = (Raise ex,
                   advance w (srv w) [EvPortStart port; EvPortStop port] 1)).
  { subst r. unfold _on_system_config_add.
    cbn [String.eqb Ascii.eqb Bool.eqb]. unfold bind.
    rewrite (start_portconf_failed env portconf false w Hreg Hcls Hs).
    fold port. now rewrite Hstop. }
  rewrite E. cbn [fst snd advance srv trace].
  split; [reflexivity|]. split; [reflexivity|].
  split; [exact Hreg | reflexivity].
Qed.

Lemma config_add_start_failure_registers_nothing_witness :
  fst (_on_system_config_add start_fails_env "ports" (CfgPort graphql_conf)
         initialized_world) = Raise (External 1)
  /\ srv (snd (_on_system_config_add start_fails_env "ports"
                 (CfgPort graphql_conf) initialized_world))
     = srv initialized_world.
Proof.
  destruct (config_add_start_failure_registers_nothing start_fails_env
              initialized_world graphql_conf (cls := HttpGraphQLPort)
              (ex := External 1) eq_refl eq_refl eq_refl eq_refl)
    as (H1 & H2 & _).
  split; assumption.
Defined.

(** ** Properties kept along every history *)

(** As [keeps], for a property that the writes of the attributes keep by
    the hypotheses at hand. *)
Ltac frame_keeps :=
  repeat (cbv beta;
    match goal with
    | |- preserves _ (bind _ _) => apply preserves_bind; [|intros ?]
    | |- preserves _ (try_except_else _ _ _) =>
        apply preserves_try; [| intros ? | intros ?]
    | |- preserves _ (for_each _ _) => apply preserves_for_each; intros ?
    | |- preserves _ (ret _) => apply preserves_ret
    | |- preserves _ (raise _) => apply preserves_raise
    | |- preserves _ get_self => apply preserves_get_self
    | |- preserves _ fresh_oid => apply preserves_fresh_oid
    | |- preserves _ (emit _) => apply preserves_emit
    | |- preserves _ (logging _ _ _) => apply preserves_emit
    | |- preserves _ (external _ _) => apply preserves_external
    | |- preserves _ (modify_self _) =>
        apply preserves_modify; intros ? ?; solve [auto]
    | |- preserves _ (if ?b then _ else _) => destruct b
    | |- preserves _ (match ?x with _ => _ end) => destruct x
    | |- preserves _ (fun w => (Ok _, w)) => intros ? ?; assumption
    | |- preserves _ (_start_portconf _ _ _) => solve [auto]
    | |- preserves _ (_stop_portconf _ _) => solve [auto]
    end).

Section Frame.
Variable P : Server -> Prop.
Hypothesis P_serving : forall b s, P s -> P (set_serving b s).
Hypothesis P_dbindex : forall d s, P s -> P (set_dbindex d s).
Hypothesis P_ports : forall l s, P s -> P (set_ports l s).
Hypothesis P_clear : forall s, P s -> P (set_sys_conf_ports [] s).
Variable env : Env.
Hypothesis P_populate : preserves P (_populate_sys_auth env).
Hypothesis P_start :
  forall portconf b, preserves P (_start_portconf env portconf b).
Hypothesis P_stop : forall portconf, preserves P (_stop_portconf env portconf).

Lemma frame_start : preserves P (start env).
Proof.
  unfold start, get_sys_config, assign_serving. frame_keeps.
  apply preserves_taskgroup; [frame_keeps|].
  intros w tasks w' [= <- _].
  apply port_tasks_preserve. intros p. unfold port_start. frame_keeps.
Qed.

Lemma frame_stop : preserves P (stop env).
Proof.
  unfold stop, assign_serving. frame_keeps.
  apply preserves_taskgroup.
  - frame_keeps.
  - intros w tasks w' [= <- _].
    apply Forall_app. split; apply port_tasks_preserve;
      intros p; unfold port_stop; frame_keeps.
Qed.

Lemma frame_new_compiler (dbname : string) (dbver : Z) :
  preserves P (new_compiler env dbname dbver).
Proof.
  unfold new_compiler, worker_call, worker_close. frame_keeps.
  intros w H. unfold spawn_worker.
  destruct (spawn_worker_outcome env (trace w)); exact H.
Qed.

Lemma frame_run_op (op : Op) (w : World) :
  P (srv w) -> P (srv (run_op env op w)).
Proof.
  pose proof P_populate as Hpop.
  destruct op; simpl.
  - revert w. change (preserves P (init env)). unfold init. frame_keeps.
    exact Hpop.
  - revert w. change (preserves P (add_port portcls kw)).
    unfold add_port, construct_port. frame_keeps.
  - apply frame_start.
  - apply frame_stop.
  - apply P_start.
  - apply P_stop.
  - revert w. change (preserves P (_on_system_config_add env setting_name value)).
    unfold _on_system_config_add. frame_keeps.
  - revert w. change (preserves P (_on_system_config_rem env setting_name value)).
    unfold _on_system_config_rem. frame_keeps.
  - revert w.
    change (preserves P (_after_system_config_add env setting_name value)).
    unfold _after_system_config_add. frame_keeps. exact Hpop.
  - revert w.
    change (preserves P (_after_system_config_rem env setting_name value)).
    unfold _after_system_config_rem. frame_keeps. exact Hpop.
  - apply frame_new_compiler.
  - revert w. change (preserves P (get_auth_method user database)).
    unfold get_auth_method. frame_keeps.
Qed.

Lemma frame_run_ops (ops : list Op) :
  forall w, P (srv w) -> P (srv (run_ops env ops w)).
Proof.
  unfold run_ops. induction ops as [|op ops IH]; intros w H; simpl; auto.
  apply IH. now apply frame_run_op.
Qed.
End Frame.

(** A property that does not depend on the dynamic ports is kept by
    [_start_portconf] and [_stop_portconf]. *)
Section FrameDynamic.
Variable P : Server -> Prop.
Hypothesis P_dynamic : forall d s, P s -> P (set_sys_conf_ports d s).
Variable env : Env.

Lemma frame_start_portconf (portconf : Portconf.t) (b : bool) :
  preserves P (_start_portconf env portconf b).
Proof.
  unfold _start_portconf, construct_port, port_start, port_stop.
  frame_keeps.
Qed.

Lemma frame_stop_portconf (portconf : Portconf.t) :
  preserves P (_stop_portconf env portconf).
Proof. unfold _stop_portconf, port_stop. frame_keeps. Qed.
End FrameDynamic.

(** A property that does not depend on the rules is kept by
    [_populate_sys_auth]. *)
Lemma frame_populate_sys_auth (P : Server -> Prop) (env : Env) :
  (forall a s, P s -> P (set_sys_auth a s)) ->
  preserves P (_populate_sys_auth env).
Proof.
  intros P_sys_auth. unfold _populate_sys_auth, get_sys_config. frame_keeps.
Qed.

(** X12. The backend address is resolved once: in every world the server can
    be in, the address (and the data directory) it holds is the one
    resolved from the connection specification of its cluster, and no
    sequence of calls changes the address or the cluster. *)
Theorem backend_address_is_fixed (env : Env) (lib : Urllib) (w : World) :
  reachable env lib w ->
  address_of_cluster lib (srv w) /\
  forall ops,
    _pg_addr (srv (run_ops env ops w)) = _pg_addr (srv w) /\
    _cluster (srv (run_ops env ops w)) = _cluster (srv w).
Proof.
  intros (cluster & rd & ird & mbc & s & ops0 & Hinit & ->).
  split.
  - apply frame_run_ops; try (intros; assumption).
    + apply frame_populate_sys_auth. intros; assumption.
    + intros pc b. apply frame_start_portconf. intros; assumption.
    + intros pc. apply frame_stop_portconf. intros; assumption.
    + unfold __init__ in Hinit.
      destruct (_get_pgaddr lib (connection_spec cluster)) eqn:E;
        [|discriminate].
      injection Hinit as <-. split; [exact E | reflexivity].
  - intros ops.
    set (w := run_ops env ops0 (initial_world s)).
    apply (frame_run_ops
             (P := fun s' => _pg_addr s' = _pg_addr (srv w) /\
                             _cluster s' = _cluster (srv w)));
      try (intros; assumption).
    + apply frame_populate_sys_auth. intros; assumption.
    + intros pc b. apply frame_start_portconf. intros; assumption.
    + intros pc. apply frame_stop_portconf. intros; assumption.
    + split; reflexivity.
Qed.

Lemma backend_address_is_fixed_witness :
  _pg_addr (srv serving_world) = "/run/pg/.s.PGSQL.5432".
Proof.
  assert (Hr : reachable quiet_env PlainUrllib.lib
                 (initial_world example_server)).
  { exists example_cluster, "/run/edb", "/run/edb/internal", 10%Z,
      example_server, []. split; reflexivity. }
  destruct (backend_address_is_fixed Hr) as [_ H].
  apply (H [OpInit;
            OpAddPort (OtherPort "BinaryPort") [("netport", PyInt 5656)];
            OpStartPortconf graphql_conf false; OpStart]).
Defined.

Lemma dict_get_In (d : dict Portconf.t Port) (k : Portconf.t) (v : Port) :
  dict_get Portconf.eqb k d = Some v -> In (k, v) d.
Proof.
  induction d as [|[k0 v0] d IH]; simpl; [discriminate|].
  destruct (Portconf.eqb k k0) eqn:E.
  - intros [= ->]. apply Portconf_eqb_eq in E. subst. now left.
  - intros H. right. now apply IH.
Qed.

Lemma start_portconf_entries (env : Env) (portconf : Portconf.t)
    (b : bool) :
  preserves entries_match (_start_portconf env portconf b).
Proof.
  intros w Hinv.
  assert (Hset : forall cls,
             registered portconf w = false ->
             port_cls_of_protocol (Portconf.protocol portconf) = Some cls ->
             entries_match
               (set_sys_conf_ports
                  (dict_set Portconf.eqb portconf
                     (listener_of w cls portconf) (_sys_conf_ports (srv w)))
                  (srv w))).
  { intros cls Hreg Hcls. unfold entries_match.
    cbn [_sys_conf_ports set_sys_conf_ports].
    rewrite dict_set_absent by exact Hreg.
    apply Forall_app. split; [exact Hinv|].
    constructor; [|constructor].
    repeat split. exact Hcls. }
  destruct (registered portconf w) eqn:Hreg.
  - now rewrite start_portconf_registered.
  - destruct (port_cls_of_protocol (Portconf.protocol portconf))
      as [cls|] eqn:Hcls.
    + destruct (port_start_outcome env (trace w)
                  (listener_of w cls portconf)) as [ex|] eqn:Hs.
      * rewrite (start_portconf_failed env portconf b w Hreg Hcls Hs).
        destruct (port_stop_outcome env _ _); [assumption|].
        destruct b; [|assumption]. now apply Hset.
      * rewrite (start_portconf_started env portconf b w Hreg Hcls Hs).
        now apply Hset.
    + now rewrite start_portconf_unknown.
Qed.

Lemma stop_portconf_entries (env : Env) (portconf : Portconf.t) :
  preserves entries_match (_stop_portconf env portconf).
Proof.
  intros w Hinv.
  destruct (registered portconf w) eqn:Hreg.
  - destruct (dict_pop_present _ _ Hreg) as (port & rest & Hpop).
    rewrite (stop_portconf_present env portconf w Hpop).
    unfold entries_match, advance in *.
    cbn [snd srv _sys_conf_ports set_sys_conf_ports].
    rewrite Forall_forall in *. intros e He.
    apply (Hinv e). eapply dict_pop_incl; eauto.
  - now rewrite stop_portconf_absent.
Qed.

(** X13. In every world the server can be in, the listener registered for a
    configuration object is of the class of the object's protocol
    ([HttpGraphQLPort] for ['graphql+http'], [HttpEdgeQLPort] for
    ['edgeql+http']), was constructed with the fields of that object, and
    holds the server's backend address and data directory. *)
Theorem registered_listener_matches_config
    (env : Env) (lib : Urllib) (w : World) (portconf : Portconf.t)
    (p : Port) :
  reachable env lib w ->
  dict_get Portconf.eqb portconf (_sys_conf_ports (srv w)) = Some p ->
  port_cls_of_protocol (Portconf.protocol portconf) = Some (port_cls p) /\
  kwargs p = portconf_kwargs portconf /\
  pg_addr p = _pg_addr (srv w) /\
  pg_data_dir p = _pg_data_dir (srv w).
Proof.
  intros (cluster & rd & ird & mbc & s & ops & Hinit & ->) Hget.
  assert (H : entries_match (srv (run_ops env ops (initial_world s)))).
  { apply frame_run_ops; try (intros; assumption).
    - intros s0 _. constructor.
    - apply frame_populate_sys_auth. intros; assumption.
    - apply start_portconf_entries.
    - apply stop_portconf_entries.
    - unfold __init__ in Hinit.
      destruct (_get_pgaddr lib (connection_spec cluster)); [|discriminate].
      injection Hinit as <-. constructor. }
  unfold entries_match in H. rewrite Forall_forall in H.
  exact (H _ (dict_get_In _ _ Hget)).
Qed.

Lemma registered_listener_matches_config_witness :
  exists p,
    dict_get Portconf.eqb graphql_conf (_sys_conf_ports (srv serving_world))
    = Some p /\
    port_cls p = HttpGraphQLPort /\
    pg_addr p = "/run/pg/.s.PGSQL.5432".
Proof.
  assert (Hr : reachable quiet_env PlainUrllib.lib serving_world).
  { exists example_cluster, "/run/edb", "/run/edb/internal", 10%Z,
      example_server,
      [OpInit; OpAddPort (OtherPort "BinaryPort") [("netport", PyInt 5656)];
       OpStartPortconf graphql_conf false; OpStart].
    split; reflexivity. }
  eexists. split; [reflexivity|].
  match goal with
  | |- port_cls ?p = _ /\ _ =>
      destruct (@registered_listener_matches_config quiet_env
                  PlainUrllib.lib serving_world graphql_conf p Hr eq_refl)
        as (Hc & _ & Ha & _)
  end.
  split; [|exact Ha].
  exact (f_equal (fun o => match o with Some c => c | None => HttpEdgeQLPort end)
           (eq_sym Hc)).
Defined.

(** ** Startup *)

Lemma only_dynamic_refl (s : Server) : only_dynamic_ports_differ s s.
Proof. exists (_sys_conf_ports s). symmetry. apply set_sys_conf_ports_same. Qed.

Lemma only_dynamic_trans (s1 s2 s3 : Server) :
  only_dynamic_ports_differ s1 s2 -> only_dynamic_ports_differ s2 s3 ->
  only_dynamic_ports_differ s1 s3.
Proof. intros [d1 ->] [d2 ->]. now exists d2. Qed.

Lemma port_start_run (env : Env) (p : Port) (w : World) :
  port_start env p w =
  (match port_start_outcome env (trace w) p with
   | None => Ok tt
   | Some e => Raise e
   end,
   {| srv := srv w; trace := trace w ++ [EvPortStart p];
      next_oid := next_oid w |}).
Proof.
  unfold port_start. unfold_m.
  now destruct (port_start_outcome env (trace w) p).
Qed.

Lemma advance_nothing (w : World) : advance w (srv w) [] 0 = w.
Proof. destruct w. unfold advance. simpl. now rewrite app_nil_r. Qed.

Lemma run_start_tasks (env : Env) (ports : list Port) :
  (forall h p, In p ports -> port_start_outcome env h p = None) ->
  forall w,
    run_tasks (map (port_start env) ports) None w
    = (None, advance w (srv w) (map EvPortStart ports) 0).
Proof.
  induction ports as [|p ports IH]; intros Hok w; simpl.
  - now rewrite advance_nothing.
  - rewrite port_start_run, (Hok _ p) by now left.
    rewrite IH by (intros h q Hq; apply Hok; now right).
    unfold advance. cbn [srv trace next_oid]. now rewrite <- app_assoc.
Qed.

(** The first two steps of [start()]. *)
Lemma start_static_phase (env : Env) (w : World) (A : Type)
    (rest : M A) :
  preload_outcome env (trace w) = None ->
  static_ports_start env w ->
  (external EvPreload (preload_outcome env) ;;
   taskgroup (self <- get_self ;; ret (map (port_start env) (_ports self))) ;;
   rest) w
  = rest (advance w (srv w) (EvPreload :: map EvPortStart (_ports (srv w))) 0).
Proof.
  intros Hpre Hstatic. unfold taskgroup. unfold_m. rewrite Hpre. unfold_m.
  rewrite run_start_tasks by exact Hstatic.
  unfold advance. cbn [srv trace next_oid]. now rewrite <- app_assoc.
Qed.

(** X14. [start()] on a server whose [init()] has not run: the static ports
    are started, then reading the configuration raises [AttributeError];
    [_serving] is not set and no dynamic port is started. *)
Theorem start_before_init (env : Env) (w : World) :
  preload_outcome env (trace w) = None ->
  static_ports_start env w ->
  _dbindex (srv w) = None ->
  start env w =
  (Raise (AttributeError
            "'NoneType' object has no attribute 'get_sys_config'"),
   advance w (srv w) (EvPreload :: map EvPortStart (_ports (srv w))) 0).
Proof.
  intros Hpre Hstatic Hdb. unfold start.
  rewrite start_static_phase by assumption.
  unfold get_sys_config. unfold_m. unfold advance. cbn [srv].
  now rewrite Hdb.
Qed.

Lemma start_before_init_witness :
  fst (start quiet_env example_world)
  = Raise (AttributeError
             "'NoneType' object has no attribute 'get_sys_config'")
  /\ _serving (srv (snd (start quiet_env example_world))) = false.
Proof.
  rewrite (@start_before_init quiet_env example_world eq_refl).
  - split; reflexivity.
  - intros h p [].
  - reflexivity.
Defined.

Lemma registered_after_set (portconf : Portconf.t) (port : Port)
    (d : dict Portconf.t Port) :
  dict_contains Portconf.eqb portconf
    (dict_set Portconf.eqb portconf port d) = true.
Proof.
  unfold dict_contains. now rewrite (dict_get_set_same Portconf_eqb_eq).
Qed.

Lemma registered_kept_by_set (portconf k : Portconf.t) (port : Port)
    (d : dict Portconf.t Port) :
  dict_contains Portconf.eqb k d = true ->
  dict_contains Portconf.eqb k (dict_set Portconf.eqb portconf port d)
  = true.
Proof.
  unfold dict_contains.
  destruct (Portconf.eqb k portconf) eqn:E.
  - apply Portconf_eqb_eq in E. subst k.
    now rewrite (dict_get_set_same Portconf_eqb_eq).
  - now rewrite (dict_get_set_other Portconf_eqb_eq).
Qed.

(** One suppressed start of a configuration object with a known
    protocol, when no [stop()] raises. *)
Lemma start_portconf_suppressed (env : Env) (portconf : Portconf.t)
    (w : World) :
  stops_return env ->
  known_protocol portconf ->
  exists o w',
    _start_portconf env portconf true w = (Ok o, w') /\
    only_dynamic_ports_differ (srv w) (srv w') /\
    registered portconf w' = true /\
    (forall k, registered k w = true -> registered k w' = true).
Proof.
  intros Hstops Hk.
  destruct (registered portconf w) eqn:Hreg.
  - rewrite start_portconf_registered by assumption.
    do 2 eexists. split; [reflexivity|].
    split; [apply only_dynamic_refl|]. split; [exact Hreg | auto].
  - destruct (port_cls_of_protocol (Portconf.protocol portconf))
      as [cls|] eqn:Hcls; [|now apply port_cls_known in Hk].
    destruct (port_start_outcome env (trace w)
                (listener_of w cls portconf)) as [ex|] eqn:Hs.
    + rewrite (start_portconf_failed env portconf true w Hreg Hcls Hs).
      rewrite Hstops. do 2 eexists. split; [reflexivity|].
      split; [eexists; reflexivity|].
      unfold registered, advance. cbn [srv _sys_conf_ports set_sys_conf_ports].
      split; [apply registered_after_set|].
      intros k. apply registered_kept_by_set.
    + rewrite (start_portconf_started env portconf true w Hreg Hcls Hs).
      do 2 eexists. split; [reflexivity|].
      split; [eexists; reflexivity|].
      unfold registered, advance. cbn [srv _sys_conf_ports set_sys_conf_ports].
      split; [apply registered_after_set|].
      intros k. apply registered_kept_by_set.
Qed.

(** The loop of [start()] over configuration objects with known
    protocols, when no [stop()] raises. *)
Lemma start_loop_suppressed (env : Env) (pcs : list Portconf.t) :
  stops_return env ->
  Forall known_protocol pcs ->
  forall w,
  exists w',
    for_each pcs (fun portconf => _start_portconf env portconf true ;; ret tt)
      w = (Ok tt, w') /\
    only_dynamic_ports_differ (srv w) (srv w') /\
    (ports_inv (srv w) -> ports_inv (srv w')) /\
    (forall portconf, In portconf pcs -> registered portconf w' = true) /\
    (forall k, registered k w = true -> registered k w' = true).
Proof.
  intros Hstops Hall. induction Hall as [|pc pcs Hk _ IH]; intros w.
  - exists w. split; [reflexivity|]. split; [apply only_dynamic_refl|].
    split; [auto|]. split; [intros ? []| auto].
  - destruct (start_portconf_suppressed w Hstops Hk)
      as (o & w1 & Hrun & Hd1 & Hr1 & Hm1).
    destruct (IH w1) as (w2 & Hloop & Hd2 & Hinv2 & Hr2 & Hm2).
    exists w2. cbn [for_each]. unfold bind at 1. unfold bind at 1.
    rewrite Hrun. cbn [ret]. split; [exact Hloop|].
    split; [eapply only_dynamic_trans; eauto|].
    split.
    + intros Hinv. apply Hinv2.
      pose proof (start_portconf_inv env pc true w Hinv) as H.
      now rewrite Hrun in H.
    + split; [|auto]. intros k [<- | Hin]; auto.
Qed.

Lemma for_each_app (A : Type) (l1 l2 : list A) (body : A -> M unit)
    (w : World) :
  for_each (l1 ++ l2) body w =
  match for_each l1 body w with
  | (Ok _, w') => for_each l2 body w'
  | (Raise e, w') => (Raise e, w')
  end.
Proof.
  revert w. induction l1 as [|a l1 IH]; intros w; simpl; [reflexivity|].
  unfold bind. destruct (body a w) as [[[]|e] w']; auto.
Qed.

Lemma only_dynamic_fields (s s' : Server) :
  only_dynamic_ports_differ s s' ->
  _serving s' = _serving s /\ _ports s' = _ports s /\
  _dbindex s' = _dbindex s /\ _sys_auth s' = _sys_auth s.
Proof. intros [d ->]. repeat split. Qed.

Lemma unknown_not_registered (w : World) (portconf : Portconf.t) :
  ports_inv (srv w) -> ~ known_protocol portconf ->
  registered portconf w = false.
Proof.
  intros [_ Hall] Hk. unfold registered.
  apply (dict_contains_false Portconf_eqb_eq). intros Hin.
  rewrite Forall_forall in Hall. auto.
Qed.

(** X15. [start()] serves what is configured even when configured listeners
    fail to start. When the parser preloads, the static ports start, no
    listener's [stop()] raises and every configured port has a known
    protocol, [start()] returns and sets [_serving]; every configured
    object is registered afterwards, whether its listener started or
    not, and what was registered and the static ports stay. *)
Theorem start_registers_configured_ports (env : Env) (w : World) :
  preload_outcome env (trace w) = None ->
  static_ports_start env w ->
  stops_return env ->
  _dbindex (srv w) <> None ->
  let pcs := configured_ports (sys_config env (after_static_phase w)) in
  Forall known_protocol pcs ->
  let r := start env w in
  fst r = Ok tt /\
  _serving (srv (snd r)) = true /\
  _ports (srv (snd r)) = _ports (srv w) /\
  (forall portconf, In portconf pcs -> registered portconf (snd r) = true) /\
  (forall k, registered k w = true -> registered k (snd r) = true).
Proof.
  intros Hpre Hstatic Hstops Hdb pcs Hall r.
  set (w0 := advance w (srv w)
               (EvPreload :: map EvPortStart (_ports (srv w))) 0).
  destruct (start_loop_suppressed Hstops Hall w0)
    as (w2 & Hloop & Hdyn & _ & Hreg & Hmono).
  assert (E : r = (Ok tt,
                   {| srv := set_serving true (srv w2);
                      trace := trace w2 ++ [EvSetServing true];
                      next_oid := next_oid w2 |})).
  { subst r. unfold start. rewrite start_static_phase by assumption.
    fold w0. unfold get_sys_config. unfold bind at 1. unfold bind at 1.
    unfold get_self at 1. cbv beta iota.
    change (srv w0) with (srv w).
    destruct (_dbindex (srv w)) as [d|]; [|congruence].
    cbv beta iota.
    change (trace w0) with (after_static_phase w).
    assert (Hfor :
              match cfg_ports (sys_config env (after_static_phase w)) with
              | Some ports =>
                  for_each ports
                    (fun portconf =>
                       _start_portconf env portconf true ;; ret tt)
              | None => ret tt
              end
              = for_each pcs
                  (fun portconf =>
                     _start_portconf env portconf true ;; ret tt)).
    { unfold pcs, configured_ports.
      now destruct (cfg_ports (sys_config env (after_static_phase w))). }
    rewrite Hfor. unfold bind at 1. rewrite Hloop.
    unfold assign_serving. unfold_m. reflexivity. }
  rewrite E. cbn [fst snd srv].
  destruct (only_dynamic_fields Hdyn) as (_ & Hports & _).
  split; [reflexivity|]. split; [reflexivity|].
  split; [exact Hports|]. split.
  - intros pc Hin. exact (Hreg pc Hin).
  - intros k Hk. exact (Hmono k Hk).
Qed.

Lemma start_registers_configured_ports_witness :
  fst (start (simple_env (Some (External 1)) None None
                (ports_config [graphql_conf; edgeql_conf]))
         initialized_world) = Ok tt
  /\ registered edgeql_conf
       (snd (start (simple_env (Some (External 1)) None None
                      (ports_config [graphql_conf; edgeql_conf]))
               initialized_world)) = true.
Proof.
  destruct (@start_registers_configured_ports
              (simple_env (Some (External 1)) None None
                 (ports_config [graphql_conf; edgeql_conf]))
              initialized_world) as (H1 & _ & _ & H4 & _).
  - reflexivity.
  - intros h p [].
  - intros h p. reflexivity.
  - discriminate.
  - constructor; [left; reflexivity|].
    constructor; [right; reflexivity | constructor].
  - split; [exact H1|]. apply H4. right. left. reflexivity.
Defined.

(** X16. An unknown protocol among the configured ports aborts [start()]:
    the error for the first such object is raised although the configured
    ports are started with [suppress_errors] true, [_serving] is not set,
    and the object is not registered. The objects before it (with known
    protocols, no [stop()] raising) are registered by then. *)
Theorem start_unknown_protocol_aborts
    (env : Env) (lib : Urllib) (w : World)
    (pre : list Portconf.t) (bad : Portconf.t) (post : list Portconf.t) :
  reachable env lib w ->
  preload_outcome env (trace w) = None ->
  static_ports_start env w ->
  stops_return env ->
  _dbindex (srv w) <> None ->
  cfg_ports (sys_config env (after_static_phase w))
  = Some (pre ++ bad :: post) ->
  Forall known_protocol pre ->
  ~ known_protocol bad ->
  let r := start env w in
  fst r = Raise (InvalidReferenceError (Portconf.protocol bad)) /\
  _serving (srv (snd r)) = _serving (srv w) /\
  registered bad (snd r) = false /\
  (forall portconf, In portconf pre -> registered portconf (snd r) = true).
Proof.
  intros Hr Hpre Hstatic Hstops Hdb Hcfg Hall Hbad r.
  apply reachable_inv in Hr.
  set (w0 := advance w (srv w)
               (EvPreload :: map EvPortStart (_ports (srv w))) 0).
  destruct (start_loop_suppressed Hstops Hall w0)
    as (w2 & Hloop & Hdyn & Hinv & Hreg & _).
  assert (Hinv2 : ports_inv (srv w2)) by (apply Hinv; exact Hr).
  assert (Hbad2 : registered bad w2 = false)
    by now apply unknown_not_registered.
  assert (E : r = (Raise (InvalidReferenceError (Portconf.protocol bad)),
                   w2)).
  { subst r. unfold start. rewrite start_static_phase by assumption.
    fold w0. unfold get_sys_config. unfold bind at 1. unfold bind at 1.
    unfold get_self at 1. cbv beta iota.
    change (srv w0) with (srv w).
    destruct (_dbindex (srv w)) as [d|]; [|congruence].
    cbv beta iota.
    change (trace w0) with (after_static_phase w). rewrite Hcfg.
    unfold bind at 1. rewrite for_each_app, Hloop.
    cbn [for_each]. unfold bind at 1. unfold bind at 1.
    rewrite start_portconf_unknown; [reflexivity | exact Hbad2 |].
    destruct (port_cls_of_protocol (Portconf.protocol bad)) eqn:Ec; auto.
    exfalso. apply Hbad, port_cls_known. congruence. }
  rewrite E. cbn [fst snd].
  destruct (only_dynamic_fields Hdyn) as (Hs & _).
  split; [reflexivity|]. split; [exact Hs|]. split; [exact Hbad2|].
  exact Hreg.
Qed.

Lemma start_unknown_protocol_aborts_witness :
  fst (start (simple_env None None None
                (ports_config [graphql_conf; gopher_conf; edgeql_conf]))
         initialized_world)
  = Raise (InvalidReferenceError "gopher")
  /\ _serving (srv (snd (start (simple_env None None None
                  (ports_config [graphql_conf; gopher_conf; edgeql_conf]))
                 initialized_world))) = false.
Proof.
  destruct (@start_unknown_protocol_aborts
              (simple_env None None None
                 (ports_config [graphql_conf; gopher_conf; edgeql_conf]))
              PlainUrllib.lib initialized_world
              [graphql_conf] gopher_conf [edgeql_conf])
    as (H1 & H2 & _).
  - exists example_cluster, "/run/edb", "/run/edb/internal", 10%Z,
      example_server, [OpInit]. split; reflexivity.
  - reflexivity.
  - intros h p [].
  - intros h p. reflexivity.
  - discriminate.
  - reflexivity.
  - constructor; [left; reflexivity | constructor].
  - intros [H | H]; discriminate H.
  - split; [exact H1 | exact H2].
Defined.

(** ** Initialization *)


(** ** The rules held by the server *)

Lemma populate_keeps_sorted (env : Env) :
  preserves (fun s => StronglySorted priority_le (_sys_auth s))
    (_populate_sys_auth env).
Proof.
  intros w H. unfold _populate_sys_auth, get_sys_config. unfold_m.
  destruct (_dbindex (srv w)); cbn [snd srv set_sys_auth _sys_auth];
    [apply sorted_by_priority_sorted | exact H].
Qed.

(** X18. In every world the server can be in, the rules it holds are sorted
    by ascending priority; so whenever [get_auth_method] answers from a
    non-empty rule set, the answer is the method of a matching rule whose
    priority number is the lowest among the matching rules held. *)
Theorem answer_has_lowest_priority
    (env : Env) (lib : Urllib) (w : World) (user database : string)
    (m : AuthMethod) :
  reachable env lib w ->
  _sys_auth (srv w) <> [] ->
  fst (get_auth_method user database w) = Ok (Some m) ->
  StronglySorted priority_le (_sys_auth (srv w)) /\
  exists r,
    In r (_sys_auth (srv w)) /\
    rule_matches user database r /\
    m = Auth.method r /\
    forall b, In b (_sys_auth (srv w)) -> rule_matches user database b ->
              (Auth.priority r <= Auth.priority b)%Z.
Proof.
  intros (cluster & rd & ird & mbc & s & ops & Hinit & ->) Hne Hget.
  set (w := run_ops env ops (initial_world s)) in *.
  assert (Hsorted : StronglySorted priority_le (_sys_auth (srv w))).
  { apply (frame_run_ops
             (P := fun s => StronglySorted priority_le (_sys_auth s)));
      try (intros; assumption).
    - apply populate_keeps_sorted.
    - intros pc b. apply frame_start_portconf. intros; assumption.
    - intros pc. apply frame_stop_portconf. intros; assumption.
    - unfold __init__ in Hinit.
      destruct (_get_pgaddr lib (connection_spec cluster)); [|discriminate].
      injection Hinit as <-. constructor. }
  split; [exact Hsorted|].
  unfold get_auth_method in Hget.
  cbv beta iota zeta delta [bind ret get_self] in Hget.
  destruct (_sys_auth (srv w)) as [|a0 l0] eqn:E; [congruence|].
  rewrite <- E in *. clear E. cbn [fst] in Hget.
  pose proof (scan_authlist_spec user database (_sys_auth (srv w))) as Hspec.
  destruct (scan_authlist user database (_sys_auth (srv w))) as [m'|];
    [|discriminate].
  injection Hget as ->.
  destruct Hspec as (r & (pre & post & Hl & Hpre & Hr) & ->).
  exists r. rewrite Hl in *.
  split; [apply in_elt|]. split; [exact Hr|]. split; [reflexivity|].
  intros b Hb Hmb. apply in_app_or in Hb. destruct Hb as [Hb | [<- | Hb]].
  - rewrite Forall_forall in Hpre. exfalso. exact (Hpre b Hb Hmb).
  - lia.
  - apply sorted_after in Hsorted. rewrite Forall_forall in Hsorted.
    exact (Hsorted b Hb).
Qed.

Lemma answer_has_lowest_priority_witness :
  exists r,
    In r [rule_alice; rule_any] /\ SCRAM = Auth.method r /\
    forall b, In b [rule_alice; rule_any] -> rule_matches "alice" "db1" b ->
              (Auth.priority r <= Auth.priority b)%Z.
Proof.
  destruct (@answer_has_lowest_priority
              (simple_env None None None
                 {| cfg_ports := None;
                    cfg_auth := Some [rule_any; rule_alice] |})
              PlainUrllib.lib
              (run_ops (simple_env None None None
                          {| cfg_ports := None;
                             cfg_auth := Some [rule_any; rule_alice] |})
                 [OpInit] (initial_world example_server))
              "alice" "db1" SCRAM)
    as (_ & r & H1 & _ & H3 & H4).
  - exists example_cluster, "/run/edb", "/run/edb/internal", 10%Z,
      example_server, [OpInit]. split; reflexivity.
  - discriminate.
  - reflexivity.
  - exists r. split; [exact H1|]. split; [exact H3 | exact H4].
Defined.

(** ** Static ports while serving *)

(** X19. While [_serving] is set, no call other than [stop()] changes the
    static ports: [add_port] is refused, and nothing else writes them. *)
Theorem static_ports_frozen_while_serving
    (env : Env) (w : World) (op : Op) :
  _serving (srv w) = true ->
  op <> OpStop ->
  _ports (srv (run_op env op w)) = _ports (srv w).
Proof.
  intros Hs Hop.
  set (P := fun s : Server => _ports s = _ports (srv w)).
  assert (Huse : forall A (m : M A), preserves P m ->
                   _ports (srv (snd (m w))) = _ports (srv w))
    by (intros A m Hm; exact (Hm w eq_refl)).
  assert (Hstart : forall pc b, preserves P (_start_portconf env pc b))
    by (intros pc b; apply frame_start_portconf; intros; assumption).
  assert (Hstop : forall pc, preserves P (_stop_portconf env pc))
    by (intros pc; apply frame_stop_portconf; intros; assumption).
  assert (Hpop : preserves P (_populate_sys_auth env))
    by (apply frame_populate_sys_auth; intros; assumption).
  destruct op; simpl.
  - apply Huse. unfold init. frame_keeps. exact Hpop.
  - unfold add_port. unfold_m. now rewrite Hs.
  - apply Huse. apply frame_start; [intros; assumption | exact Hstart].
  - contradiction.
  - apply Huse, Hstart.
  - apply Huse, Hstop.
  - apply Huse. unfold _on_system_config_add. frame_keeps.
  - apply Huse. unfold _on_system_config_rem. frame_keeps.
  - apply Huse. unfold _after_system_config_add. frame_keeps. exact Hpop.
  - apply Huse. unfold _after_system_config_rem. frame_keeps. exact Hpop.
  - apply Huse, frame_new_compiler.
  - apply Huse. unfold get_auth_method. frame_keeps.
Qed.

Lemma static_ports_frozen_while_serving_witness :
  _ports (srv (run_op quiet_env
                 (OpAddPort (OtherPort "BinaryPort") [("netport", PyInt 1)])
                 serving_world))
  = _ports (srv serving_world).
Proof.
  apply static_ports_frozen_while_serving.
  - reflexivity.
  - discriminate.
Defined.
